(** * The task store, its streak and statistics engines, and the reminder scheduler

    A shallow embedding of
    - [src/types]                      (the records),
    - [src/context/TodoContext.tsx]    (reducer, [calculateStats], [calculateStreak],
                                        the commands),
    - [src/components/TaskForm.tsx]    ([validateForm], [handleSubmit]),
    - [src/hooks/useNotifications.ts]  ([scheduleNotification]),
    followed by the properties of the specification that concern them.

    Conventions.
    - A JavaScript [Date] is its [getTime()] value: milliseconds since the epoch,
      an integer of [Z].  Every [new Date()] of the source is an explicit clock
      reading passed as an argument.
    - A JavaScript [number] that holds a count or a duration is an integer of [Z].
    - An optional field ([x?: T]) is an [option]; a [Partial<T>] argument is a
      record of [option]s, [None] meaning that the key is absent.
    - A plain object used as a dictionary is a [gmap]; a [Map] is a [gmap].
    - A JavaScript string is the UTF-8 encoding of its characters, a [string]
      of bytes. *)

From Stdlib Require Import ZArith Lia.
From stdpp Require Import base option list sorting strings gmap fin_maps.

Local Open Scope Z_scope.

(** ** Calendar arithmetic

    The host's time zone is a fixed offset [tz], in milliseconds east of UTC
    (daylight-saving changes are not modelled).  A day key, the string
    [format(d, 'yyyy-MM-dd')], is represented by the number of the local calendar
    day it denotes, counted from 1970-01-01: for four-digit years the
    lexicographic order of the keys is the order of these numbers, so the default
    [Array.prototype.sort] on keys is the ascending sort on day numbers. *)

Definition msPerMinute : Z := 60000.
Definition msPerDay : Z := 1000 * 60 * 60 * 24.

Section Calendar.

Variable tz : Z.

(** [format(d, 'yyyy-MM-dd')]: the local calendar day of the instant [d]. *)
Definition dateKey (d : Z) : Z := (d + tz) `div` msPerDay.

(** [startOfDay(d)]: local midnight of the day of [d]. *)
Definition startOfDay (d : Z) : Z := dateKey d * msPerDay - tz.

(** [isSameDay(a, b)]: both instants fall on one local calendar day. *)
Definition isSameDay (a b : Z) : bool := bool_decide (dateKey a = dateKey b).

(** [new Date(key)] for a date-only key: ECMAScript reads a date-only ISO
    string as midnight UTC, whatever the host's zone. *)
Definition parseKey (key : Z) : Z := key * msPerDay.

(** [e = new Date(d); e.setDate(e.getDate() - n)]: the same wall-clock time
    [n] calendar days earlier. *)
Definition minusDays (d n : Z) : Z := d - n * msPerDay.

(** [new Date(`${day}T${hh:mm}`)]: a date-time string without zone is local
    time; [minutes] is the time of day in minutes. *)
Definition localDateTime (day minutes : Z) : Z :=
  day * msPerDay + minutes * msPerMinute - tz.

End Calendar.

(** [addMinutes(d, n)] of date-fns. *)
Definition addMinutes (d n : Z) : Z := d + n * msPerMinute.

(** [isBefore(a, b)] of date-fns. *)
Definition isBefore (a b : Z) : bool := bool_decide (a < b).

(** ** The records of [src/types] *)

Inductive Priority := low | medium | high.

Record Task := mkTask {
  id : string;
  title : string;
  description : option string;
  completed : bool;
  priority : Priority;
  dueDate : option Z;
  createdAt : Z;
  updatedAt : Z
}.

(** [Partial<Task>].  For the optional fields [description] and [dueDate] a key
    may be present and hold [undefined], which the object spread copies:
    [Some None]. *)
Record TaskUpdates := mkTaskUpdates {
  u_id : option string;
  u_title : option string;
  u_description : option (option string);
  u_completed : option bool;
  u_priority : option Priority;
  u_dueDate : option (option Z);
  u_createdAt : option Z;
  u_updatedAt : option Z
}.

(** [Omit<Task, 'id' | 'createdAt' | 'updatedAt'>], the argument of [addTask]. *)
Record TaskData := mkTaskData {
  d_title : string;
  d_description : option string;
  d_completed : bool;
  d_priority : Priority;
  d_dueDate : option Z
}.

Record UserStats := mkUserStats {
  totalTasks : Z;
  completedTasks : Z;
  currentStreak : Z;
  longestStreak : Z;
  dailyCompletion : gmap Z Z;
  weeklyCompletion : gmap string Z
}.

(** The notification sub-record is stored and replaced as one object; the
    reducer copies whatever object it is handed (the loader hands it the parsed
    JSON), so each of its fields may be absent at run time. *)
Record NotificationSettings := mkNotificationSettings {
  enabled : option bool;
  soundEnabled : option bool;
  reminderTime : option Z
}.

Inductive Theme := light | dark | system.

Record AppSettings := mkAppSettings {
  notifications : NotificationSettings;
  theme : Theme;
  language : string
}.

(** [Partial<AppSettings>]. *)
Record SettingsUpdates := mkSettingsUpdates {
  s_notifications : option NotificationSettings;
  s_theme : option Theme;
  s_language : option string
}.

Record StreakInfo := mkStreakInfo {
  current : Z;
  longest : Z;
  lastCompletionDate : option Z;
  daysWithAllTasksCompleted : list Z
}.

(** ** The store: [TodoState], [TodoAction], [todoReducer] *)

Record TodoState := mkTodoState {
  tasks : list Task;
  stats : UserStats;
  settings : AppSettings;
  streak : StreakInfo;
  isLoading : bool
}.

Inductive TodoAction :=
| SET_TASKS (payload : list Task)
| ADD_TASK (payload : Task)
| UPDATE_TASK (payload_id : string) (updates : TaskUpdates)
| DELETE_TASK (payload : string)
| TOGGLE_TASK (payload : string)
| UPDATE_SETTINGS (payload : SettingsUpdates)
| UPDATE_STATS (payload : UserStats)
| UPDATE_STREAK (payload : StreakInfo)
| SET_LOADING (payload : bool).

Definition initialSettings : AppSettings :=
  {| notifications :=
       {| enabled := Some true; soundEnabled := Some true; reminderTime := Some 15 |};
     theme := system;
     language := "en" |}.

Definition initialStats : UserStats :=
  {| totalTasks := 0; completedTasks := 0; currentStreak := 0; longestStreak := 0;
     dailyCompletion := ∅; weeklyCompletion := ∅ |}.

Definition initialStreak : StreakInfo :=
  {| current := 0; longest := 0; lastCompletionDate := None;
     daysWithAllTasksCompleted := [] |}.

Definition initialState : TodoState :=
  {| tasks := []; stats := initialStats; settings := initialSettings;
     streak := initialStreak; isLoading := false |}.

(** [{ ...task, ...updates, updatedAt: new Date() }] *)
Definition applyUpdates (now : Z) (task : Task) (u : TaskUpdates) : Task :=
  {| id := default (id task) (u_id u);
     title := default (title task) (u_title u);
     description := default (description task) (u_description u);
     completed := default (completed task) (u_completed u);
     priority := default (priority task) (u_priority u);
     dueDate := default (dueDate task) (u_dueDate u);
     createdAt := default (createdAt task) (u_createdAt u);
     updatedAt := now |}.

(** [{ ...task, completed: !task.completed, updatedAt: new Date() }] *)
Definition toggled (now : Z) (task : Task) : Task :=
  {| id := id task;
     title := title task;
     description := description task;
     completed := negb (completed task);
     priority := priority task;
     dueDate := dueDate task;
     createdAt := createdAt task;
     updatedAt := now |}.

(** [{ ...state.settings, ...payload }]: the spread copies the keys of the
    payload over those of the stored record, one level deep. *)
Definition mergeSettings (old : AppSettings) (p : SettingsUpdates) : AppSettings :=
  {| notifications := default (notifications old) (s_notifications p);
     theme := default (theme old) (s_theme p);
     language := default (language old) (s_language p) |}.

Definition setTasks (state : TodoState) (ts : list Task) : TodoState :=
  {| tasks := ts; stats := stats state; settings := settings state;
     streak := streak state; isLoading := isLoading state |}.

(** [now] is the reading of [new Date()] inside the [UPDATE_TASK] and
    [TOGGLE_TASK] cases. *)
Definition todoReducer (now : Z) (state : TodoState) (action : TodoAction) : TodoState :=
  match action with
  | SET_TASKS payload => setTasks state payload
  | ADD_TASK payload => setTasks state (tasks state ++ [payload])
  | UPDATE_TASK pid updates =>
      setTasks state
        ((λ task, if decide (id task = pid) then applyUpdates now task updates else task)
           <$> tasks state)
  | DELETE_TASK payload =>
      setTasks state (filter (λ task, id task ≠ payload) (tasks state))
  | TOGGLE_TASK payload =>
      setTasks state
        ((λ task, if decide (id task = payload) then toggled now task else task)
           <$> tasks state)
  | UPDATE_SETTINGS payload =>
      {| tasks := tasks state; stats := stats state;
         settings := mergeSettings (settings state) payload;
         streak := streak state; isLoading := isLoading state |}
  | UPDATE_STATS payload =>
      {| tasks := tasks state; stats := payload; settings := settings state;
         streak := streak state; isLoading := isLoading state |}
  | UPDATE_STREAK payload =>
      {| tasks := tasks state; stats := stats state; settings := settings state;
         streak := payload; isLoading := isLoading state |}
  | SET_LOADING payload =>
      {| tasks := tasks state; stats := stats state; settings := settings state;
         streak := streak state; isLoading := payload |}
  end.

(** ** The commands of the context

    [newId] is the value of [uuidv4()]; [created] and [updated] are the two
    readings of [new Date()] in [addTask]. *)

Definition addTask (newId : string) (created updated : Z) (taskData : TaskData)
    (state : TodoState) : TodoState :=
  let newTask :=
    {| id := newId;
       title := d_title taskData;
       description := d_description taskData;
       completed := d_completed taskData;
       priority := d_priority taskData;
       dueDate := d_dueDate taskData;
       createdAt := created;
       updatedAt := updated |} in
  todoReducer updated state (ADD_TASK newTask).

Definition updateTask (now : Z) (tid : string) (updates : TaskUpdates)
    (state : TodoState) : TodoState :=
  todoReducer now state (UPDATE_TASK tid updates).

Definition deleteTask (now : Z) (tid : string) (state : TodoState) : TodoState :=
  todoReducer now state (DELETE_TASK tid).

Definition toggleTask (now : Z) (tid : string) (state : TodoState) : TodoState :=
  todoReducer now state (TOGGLE_TASK tid).

Definition updateSettings (now : Z) (p : SettingsUpdates) (state : TodoState) : TodoState :=
  todoReducer now state (UPDATE_SETTINGS p).

(** ** [calculateStats] *)

Section Engines.

Variable tz : Z.

(** The body of the [forEach] over the tasks: the bucket of the task's
    creation day is created at 0 when it is missing (or falsy) and incremented
    when the task is completed. *)
Definition countTask (daily : gmap Z Z) (task : Task) : gmap Z Z :=
  let key := dateKey tz (createdAt task) in
  let daily1 :=
    match daily !! key with
    | Some n => if decide (n = 0) then <[key := 0]> daily else daily
    | None => <[key := 0]> daily
    end in
  if completed task then <[key := default 0 (daily1 !! key) + 1]> daily1 else daily1.

Definition calculateStats (state : TodoState) : UserStats :=
  {| totalTasks := Z.of_nat (length (tasks state));
     completedTasks :=
       Z.of_nat (length (filter (λ task, completed task = true) (tasks state)));
     currentStreak := current (streak state);
     longestStreak := longest (streak state);
     dailyCompletion := foldl countTask ∅ (tasks state);
     weeklyCompletion := ∅ |}.

(** ** [calculateStreak] *)

(** [task.dueDate && isSameDay(task.dueDate, today)] *)
Definition dueOn (today : Z) (task : Task) : bool :=
  match dueDate task with
  | Some due => isSameDay tz due today
  | None => false
  end.

(** The default [sort()] of an array of day keys. *)
Definition sortDays (days : list Z) : list Z := merge_sort Z.le days.

(** The counting loop, from index [length - 1] down to 0: [days] is the
    sorted array read from its end, [n] the value of [currentStreak] so far. *)
Fixpoint countBackwards (today : Z) (days : list Z) (n : Z) : Z :=
  match days with
  | [] => n
  | day :: earlier =>
      if isSameDay tz (parseKey day) (minusDays today n)
      then countBackwards today earlier (n + 1)
      else n
  end.

(** The tasks due today, and whether there is one and all are completed. *)
Definition todayTasks (today : Z) (ts : list Task) : list Task :=
  filter (λ task, dueOn today task = true) ts.

Definition allTodayTasksCompleted (today : Z) (ts : list Task) : bool :=
  bool_decide (0 < length (todayTasks today ts))%nat
  && forallb completed (todayTasks today ts).

(** The copy of the recorded days with today's key pushed or filtered out. *)
Definition newDaysWithAllCompleted (allDone : bool) (todayKey : Z) (recorded : list Z)
    : list Z :=
  if allDone && negb (bool_decide (todayKey ∈ recorded))
  then recorded ++ [todayKey]
  else if negb allDone && bool_decide (todayKey ∈ recorded)
  then filter (λ day, day ≠ todayKey) recorded
  else recorded.

(** The value of [currentStreak] after the two nested [if]s. *)
Definition streakEndingAt (today : Z) (sortedDays : list Z) : Z :=
  match last sortedDays with
  | None => 0
  | Some lastKey =>
      let daysDiff := (today - parseKey lastKey) `div` msPerDay in
      if bool_decide (daysDiff ≤ 1)
      then countBackwards today (reverse sortedDays) 0
      else 0
  end.

Definition calculateStreak (now : Z) (state : TodoState) : StreakInfo :=
  let today := startOfDay tz now in
  let todayKey := dateKey tz today in
  let allDone := allTodayTasksCompleted today (tasks state) in
  (* [sort()] sorts the array in place: [sortedDays] and the array stored in
     the new record are one array. *)
  let sortedDays :=
    sortDays
      (newDaysWithAllCompleted allDone todayKey
         (daysWithAllTasksCompleted (streak state))) in
  let currentStreak := streakEndingAt today sortedDays in
  {| current := currentStreak;
     longest := Z.max (longest (streak state)) currentStreak;
     lastCompletionDate :=
       if allDone then Some today else lastCompletionDate (streak state);
     daysWithAllTasksCompleted := sortedDays |}.

(** The two effects that follow a change of [state.tasks], once settled: the
    streak is recomputed from the tasks and the stored streak, and the statistics
    from the tasks and the new streak. *)
Definition recompute (now : Z) (state : TodoState) : TodoState :=
  let state1 := todoReducer now state (UPDATE_STREAK (calculateStreak now state)) in
  todoReducer now state1 (UPDATE_STATS (calculateStats state1)).

(** A session as far as the streak is concerned: one recompute per change of
    the task list, each with its own clock reading and task list. *)
Definition recomputeAll (history : list (Z * list Task)) (state : TodoState) : TodoState :=
  foldl (λ st step, recompute step.1 (setTasks st step.2)) state history.

End Engines.

(** ** The form: [validateForm] and [handleSubmit] *)

(** [dueDate] and [dueTime] are the values of a date and a time input: the
    empty string is [None], a date is its day number, a time its minutes since
    midnight.  The form is modelled on well-formed values: a date with a
    four-digit year and a time from 00:00 to 23:59.  For other strings (a year
    of five digits, a time such as 25:00 from the voice parser)
    [new Date(...)] is an invalid date, which has no counterpart here; the
    properties that depend on the date say so by [wellFormedDate] and
    [wellFormedTime]. *)
Record TaskFormData := mkTaskFormData {
  f_title : string;
  f_description : string;
  f_priority : Priority;
  f_dueDate : option Z;
  f_dueTime : option Z
}.

(** The keys [validateForm] may set in [newErrors]. *)
Record FormErrors := mkFormErrors {
  e_title : option string;
  e_dueDate : option string
}.

(** The white space and line terminators of ECMAScript that take more than
    one byte: U+00A0 in two bytes; U+1680, U+2000 to U+200A, U+2028, U+2029,
    U+202F, U+205F, U+3000 and U+FEFF in three.  The one-byte ones (U+0009 to
    U+000D and U+0020) are [Ascii.is_space]. *)
Definition isSpace2 (a b : Strings.Ascii.ascii) : bool :=
  bool_decide ((Strings.Ascii.N_of_ascii a, Strings.Ascii.N_of_ascii b) = (194, 160)%N).

Definition isSpace3 (a b c : Strings.Ascii.ascii) : bool :=
  let x := Strings.Ascii.N_of_ascii c in
  match Strings.Ascii.N_of_ascii a, Strings.Ascii.N_of_ascii b with
  | 225%N, 154%N => bool_decide (x = 128%N)
  | 226%N, 128%N =>
      bool_decide (128 ≤ x ≤ 138)%N
      || bool_decide (x = 168%N) || bool_decide (x = 169%N) || bool_decide (x = 175%N)
  | 226%N, 129%N => bool_decide (x = 159%N)
  | 227%N, 128%N => bool_decide (x = 128%N)
  | 239%N, 187%N => bool_decide (x = 191%N)
  | _, _ => false
  end.

(** The string without the white space characters it starts with.  With
    [backward], the string is read from its end, so the bytes of a character
    come in reverse order; in UTF-8 the last bytes of a string tell its last
    character. *)
Fixpoint stripSpaces (backward : bool) (s : string) : string :=
  match s with
  | EmptyString => EmptyString
  | String a rest1 =>
      if Ascii.is_space a then stripSpaces backward rest1
      else
        match rest1 with
        | EmptyString => s
        | String b rest2 =>
            if (if backward then isSpace2 b a else isSpace2 a b)
            then stripSpaces backward rest2
            else
              match rest2 with
              | EmptyString => s
              | String c rest3 =>
                  if (if backward then isSpace3 c b a else isSpace3 a b c)
                  then stripSpaces backward rest3
                  else s
              end
        end
  end.

(** [String.prototype.trimStart] *)
Definition trimStart (s : string) : string := stripSpaces false s.

(** [String.prototype.trim] *)
Definition trim (s : string) : string :=
  String.rev (stripSpaces true (String.rev (trimStart s))).

Section Form.

Variable tz : Z.

Definition validateForm (now : Z) (formData : TaskFormData) : FormErrors :=
  {| e_title :=
       if decide (trim (f_title formData) = "") then Some "Title is required" else None;
     e_dueDate :=
       match f_dueDate formData, f_dueTime formData with
       | Some day, Some minutes =>
           if bool_decide (localDateTime tz day minutes < now)
           then Some "Due date cannot be in the past" else None
       | _, _ => None
       end |}.

(** [Object.keys(newErrors).length === 0] *)
Definition noErrors (e : FormErrors) : bool :=
  match e_title e, e_dueDate e with
  | None, None => true
  | _, _ => false
  end.

(** [task] is the task being edited, if any; [checked] is the clock reading of
    [validateForm], the other readings are those of the command. *)
Definition handleSubmit (checked : Z) (newId : string) (created updated : Z)
    (task : option Task) (formData : TaskFormData) (state : TodoState) : TodoState :=
  if negb (noErrors (validateForm checked formData)) then state
  else
    let due :=
      match f_dueDate formData, f_dueTime formData with
      | Some day, Some minutes => Some (localDateTime tz day minutes)
      | Some day, None => Some (localDateTime tz day (23 * 60 + 59))
      | None, _ => None
      end in
    match task with
    | Some t =>
        updateTask updated (id t)
          {| u_id := None;
             u_title := Some (trim (f_title formData));
             u_description := Some (Some (trim (f_description formData)));
             u_completed := Some (completed t);
             u_priority := Some (f_priority formData);
             u_dueDate := Some due;
             u_createdAt := None;
             u_updatedAt := None |} state
    | None =>
        addTask newId created updated
          {| d_title := trim (f_title formData);
             d_description := Some (trim (f_description formData));
             d_completed := false;
             d_priority := f_priority formData;
             d_dueDate := due |} state
    end.

End Form.

(** ** The reminder timers: [scheduleNotification]

    The host keeps the pending timeouts by handle; [notificationTimeouts] is
    the hook's [Map] from task id to handle.  A pending timeout records the
    instant at which its callback is due and the task the callback closes over. *)

Record Timeout := mkTimeout {
  fireAt : Z;
  subject : Task
}.

Record Timers := mkTimers {
  pending : gmap positive Timeout;
  nextHandle : positive;
  notificationTimeouts : gmap string positive
}.

(** The delay as the host keeps it.  The argument of [setTimeout] has the IDL
    type [long]: the number is reduced modulo 2^32 into the signed 32-bit
    range, and a negative delay counts as 0.  A delay above [maxDelay]
    (2^31 - 1 ms, about 24.8 days) is therefore not honoured: up to 2^32 it
    becomes 0, and the callback runs at once. *)
Definition maxDelay : Z := 2147483647.

Definition toInt32 (n : Z) : Z := (n + 2147483648) `mod` 4294967296 - 2147483648.

Definition hostDelay (delay : Z) : Z := Z.max 0 (toInt32 delay).

(** [setTimeout(callback, delay)] called at [now]; returns the new handle. *)
Definition setTimeout (now delay : Z) (task : Task) (t : Timers) : positive * Timers :=
  (nextHandle t,
   {| pending :=
        <[nextHandle t := {| fireAt := now + hostDelay delay; subject := task |}]> (pending t);
      nextHandle := Pos.succ (nextHandle t);
      notificationTimeouts := notificationTimeouts t |}).

Definition clearTimeout (handle : positive) (t : Timers) : Timers :=
  {| pending := delete handle (pending t);
     nextHandle := nextHandle t;
     notificationTimeouts := notificationTimeouts t |}.

(** An absent [enabled] reads as [undefined], which is falsy; an absent
    [reminderTime] makes the reminder time an invalid date, before which no
    instant is. *)
Definition scheduleNotification (settings : AppSettings) (now : Z) (task : Task)
    (t : Timers) : Timers :=
  match dueDate task with
  | None => t
  | Some due =>
      if negb (default false (enabled (notifications settings))) then t
      else
        let reminder :=
          (λ minutes, addMinutes due (- minutes)) <$> reminderTime (notifications settings) in
        let t1 :=
          match notificationTimeouts t !! id task with
          | Some existingTimeout => clearTimeout existingTimeout t
          | None => t
          end in
        match reminder with
        | Some at_ =>
            if isBefore now at_ then
              let timeUntilReminder := at_ - now in
              let (timeout, t2) := setTimeout now timeUntilReminder task t1 in
              {| pending := pending t2;
                 nextHandle := nextHandle t2;
                 notificationTimeouts := <[id task := timeout]> (notificationTimeouts t2) |}
            else t1
        | None => t1
        end
  end.

(** The timeout armed for a task id, if any: the handle stored under the id is
    still pending at the host. *)
Definition armed (tid : string) (t : Timers) : option Timeout :=
  handle ← notificationTimeouts t !! tid; pending t !! handle.

(** ** Predicates used to state the properties *)

(** The day is one of the years 0001 to 9999, the dates a date input gives
    that [new Date] reads back; day -719162 is 0001-01-01 and day 2932896 is
    9999-12-31. *)
Definition wellFormedDate (day : Z) : Prop := -719162 ≤ day ≤ 2932896.

(** The minutes are a time of day from 00:00 to 23:59. *)
Definition wellFormedTime (minutes : Z) : Prop := 0 ≤ minutes < 24 * 60.

(** The task is due on the local calendar day of [now]. *)
Definition dueToday (tz now : Z) (task : Task) : Prop :=
  ∃ due, dueDate task = Some due ∧ dateKey tz due = dateKey tz now.

(** The day of [now] qualifies: some task is due on it and every task due on
    it is completed. *)
Definition qualifies (tz now : Z) (ts : list Task) : Prop :=
  (∃ task, task ∈ ts ∧ dueToday tz now task) ∧
  (∀ task, task ∈ ts → dueToday tz now task → completed task = true).

(** The number of completed tasks of [ts] created on the local day [day]. *)
Definition completedCreatedOn (tz day : Z) (ts : list Task) : Z :=
  Z.of_nat
    (length (filter (λ task, dateKey tz (createdAt task) = day ∧ completed task = true) ts)).

(** Walking backward from [day], the number of consecutive calendar days that
    are present in [days]; [fuel] bounds the walk and [length days] is enough. *)
Fixpoint consecutiveDaysBack (fuel : nat) (day : Z) (days : list Z) : Z :=
  match fuel with
  | O => 0
  | S fuel' =>
      if bool_decide (day ∈ days)
      then 1 + consecutiveDaysBack fuel' (day - 1) days
      else 0
  end.

(** ** Sample data used in the examples *)

Definition sampleTask (tid : string) (done_ : bool) (due : option Z) (stamp : Z) : Task :=
  {| id := tid; title := "water the plants"; description := None; completed := done_;
     priority := medium; dueDate := due; createdAt := stamp; updatedAt := stamp |}.

Definition stateOf (ts : list Task) (s : StreakInfo) : TodoState :=
  {| tasks := ts; stats := initialStats; settings := initialSettings; streak := s;
     isLoading := false |}.

Definition taskA : Task := sampleTask "a" false None 5000.

(** Noon UTC of a day number; day 20000 is 2024-10-04. *)
Definition noonOf (day : Z) : Z := day * msPerDay + 12 * 60 * msPerMinute.

(** A draft with an empty title, and a form whose title is blank. *)
Definition emptyTitleData : TaskData :=
  {| d_title := ""; d_description := None; d_completed := false; d_priority := medium;
     d_dueDate := None |}.

Definition blankForm : TaskFormData :=
  {| f_title := "   "; f_description := "later"; f_priority := medium;
     f_dueDate := None; f_dueTime := None |}.

(** U+00A0, the no-break space, in UTF-8. *)
Definition noBreakSpace : string :=
  String (Strings.Ascii.ascii_of_N 194) (String (Strings.Ascii.ascii_of_N 160) EmptyString).

(** ** The reminder timers: the effect of [useNotifications]

    The effect runs [scheduleNotification] on every task that is not
    completed and has a due date; its cleanup, which React runs before the next
    run of the effect, clears every timeout of the table and empties the
    table.  Each call of [scheduleNotification] reads the clock itself:
    [clock i] is the reading of the [i]-th call of a pass. *)

(** [notificationTimeouts.current.forEach(timeout => clearTimeout(timeout));
    notificationTimeouts.current.clear()] *)
Definition cleanup (t : Timers) : Timers :=
  let cleared :=
    map_fold (λ _ timeout acc, clearTimeout timeout acc) t (notificationTimeouts t) in
  {| pending := pending cleared;
     nextHandle := nextHandle cleared;
     notificationTimeouts := ∅ |}.

(** [calls.forEach(scheduleNotification)], each call with its clock reading. *)
Definition scheduleCalls (settings : AppSettings) (calls : list (Z * Task)) (t : Timers)
    : Timers :=
  foldl (λ acc call, scheduleNotification settings call.1 call.2 acc) t calls.

(** [tasks.filter(task => !task.completed && task.dueDate)] *)
Definition remindable (ts : list Task) : list Task :=
  filter (λ task, completed task = false ∧ is_Some (dueDate task)) ts.

Definition scheduleAll (settings : AppSettings) (clock : nat → Z) (ts : list Task)
    (t : Timers) : Timers :=
  scheduleCalls settings (imap (λ i task, (clock i, task)) (remindable ts)) t.

(** One change of the task list or of the settings: the cleanup of the
    previous run, then the new run. *)
Definition resync (settings : AppSettings) (clock : nat → Z) (ts : list Task)
    (t : Timers) : Timers :=
  scheduleAll settings clock ts (cleanup t).

(** What one call of [scheduleNotification] leaves armed under the id of its
    task, [before] being what was armed under it. *)
Definition armedBy (settings : AppSettings) (now : Z) (task : Task)
    (before : option Timeout) : option Timeout :=
  match dueDate task with
  | None => before
  | Some due =>
      if default false (enabled (notifications settings)) then
        match reminderTime (notifications settings) with
        | Some lead =>
            if bool_decide (now < due - lead * msPerMinute)
            then Some {| fireAt := now + hostDelay (due - lead * msPerMinute - now);
                         subject := task |}
            else None
        | None => None
        end
      else before
  end.

(** The table is well formed: its handles were handed out by the host, and
    no two ids share a handle. *)
Definition tableOk (t : Timers) : Prop :=
  (∀ tid handle, notificationTimeouts t !! tid = Some handle →
     (handle < nextHandle t)%positive) ∧
  (∀ tid tid' handle, notificationTimeouts t !! tid = Some handle →
     notificationTimeouts t !! tid' = Some handle → tid = tid').

(** Sample timers: the empty table of a fresh hook. *)
Definition noTimers : Timers :=
  {| pending := ∅; nextHandle := 1%positive; notificationTimeouts := ∅ |}.

(** The sum of the buckets of a per-day map. *)
Definition sumValues (m : gmap Z Z) : Z := map_fold (λ _ n acc, n + acc) 0 m.

(** ** The form: its initial data

    [format(d, 'HH:mm')], as minutes since local midnight. *)
Definition minuteOfDay (tz d : Z) : Z := ((d + tz) `mod` msPerDay) `div` msPerMinute.

(** The argument of [useState<TaskFormData>]: the fields of the task being
    edited, or the defaults. *)
Definition initialFormData (tz : Z) (task : option Task) : TaskFormData :=
  {| f_title := from_option title "" task;
     f_description := default "" (task ≫= description);
     f_priority := from_option priority medium task;
     f_dueDate := dateKey tz <$> (task ≫= dueDate);
     f_dueTime := minuteOfDay tz <$> (task ≫= dueDate) |}.

(** ** The task item: [isOverdue] and [isDueToday]

    [isPast], [isToday] and [isFuture] of date-fns compare with [Date.now()];
    each call has its own clock reading. *)
Definition isPast (now d : Z) : bool := bool_decide (d < now).

Definition isFuture (now d : Z) : bool := bool_decide (now < d).

Definition isToday (tz now d : Z) : bool := isSameDay tz d now.

(** [task.dueDate && isPast(task.dueDate) && !task.completed &&
    !isToday(task.dueDate)] *)
Definition isOverdue (tz nowPast nowToday : Z) (task : Task) : bool :=
  match dueDate task with
  | Some due => isPast nowPast due && negb (completed task) && negb (isToday tz nowToday due)
  | None => false
  end.

(** [task.dueDate && isToday(task.dueDate)] *)
Definition isDueToday (tz now : Z) (task : Task) : bool :=
  match dueDate task with
  | Some due => isToday tz now due
  | None => false
  end.

(** ** The task page: sorting

    [filtered.sort(compare)].  [Array.prototype.sort] is stable, and for a
    comparator that orders the elements consistently its result is their one
    stable arrangement, which [sortBy] computes by insertion: an element goes
    before the first element it does not compare greater than. *)

Fixpoint insertBy {A : Type} (compare : A → A → Z) (x : A) (l : list A) : list A :=
  match l with
  | [] => [x]
  | y :: rest =>
      if bool_decide (compare x y ≤ 0) then x :: l else y :: insertBy compare x rest
  end.

Definition sortBy {A : Type} (compare : A → A → Z) (l : list A) : list A :=
  foldr (insertBy compare) [] l.

(** [x] may stand before [y]: the comparator does not return a positive number. *)
Definition notAfter {A : Type} (compare : A → A → Z) (x y : A) : Prop := compare x y ≤ 0.

Inductive SortType := SortPriority | SortDueDate | SortCreated | SortAlphabetical.

(** [const priorityOrder = { high: 3, medium: 2, low: 1 }] *)
Definition priorityOrder (p : Priority) : Z :=
  match p with
  | high => 3
  | medium => 2
  | low => 1
  end.

(** The four lines shared by the cases ['dueDate'] and ['priority']. *)
Definition compareDueDate (a b : Task) : Z :=
  match dueDate a, dueDate b with
  | None, None => 0
  | None, Some _ => 1
  | Some _, None => -1
  | Some x, Some y => x - y
  end.

Section Sorting.

(** [String.prototype.localeCompare], which depends on the host's locale. *)
Variable localeCompare : string → string → Z.

Definition compareTasks (sortBy : SortType) (a b : Task) : Z :=
  match sortBy with
  | SortDueDate => compareDueDate a b
  | SortPriority =>
      let priorityDiff := priorityOrder (priority b) - priorityOrder (priority a) in
      if decide (priorityDiff ≠ 0) then priorityDiff else compareDueDate a b
  | SortCreated => createdAt b - createdAt a
  | SortAlphabetical => localeCompare (title a) (title b)
  end.

Definition sortTasks (sortType : SortType) (filtered : list Task) : list Task :=
  sortBy (compareTasks sortType) filtered.

End Sorting.

(** The order the comparator of a sort type stands for. *)
Definition dueNoLater (a b : Task) : Prop :=
  match dueDate a, dueDate b with
  | None, Some _ => False
  | Some x, Some y => x ≤ y
  | _, None => True
  end.

Definition inOrder (sortType : SortType) (a b : Task) : Prop :=
  match sortType with
  | SortDueDate => dueNoLater a b
  | SortPriority =>
      priorityOrder (priority b) < priorityOrder (priority a) ∨
      (priority a = priority b ∧ dueNoLater a b)
  | SortCreated => createdAt b ≤ createdAt a
  | SortAlphabetical => True
  end.

(** ** Loading at mount

    An item of [localStorage] as [loadData] meets it: absent (or the empty
    string), not parseable ([JSON.parse] throws), or parsed.  The dates of a
    parsed task are rebuilt from their ISO strings, which denote the same
    instants. *)
Inductive Saved (A : Type) :=
| NotSaved
| Unreadable
| Readable (value : A).

Arguments NotSaved {A}.
Arguments Unreadable {A}.
Arguments Readable {A} value.

(** One [if (saved) { dispatch(...JSON.parse(saved)...) }] followed by the rest
    of the [try] block: an exception ends the block. *)
Definition dispatchSaved {A : Type} (action : A → TodoAction) (saved : Saved A)
    (rest : list TodoAction) : list TodoAction :=
  match saved with
  | NotSaved => rest
  | Unreadable => []
  | Readable value => action value :: rest
  end.

(** The dispatches of [loadData], in order. *)
Definition loadData (savedTasks : Saved (list Task)) (savedSettings : Saved SettingsUpdates)
    (savedStats : Saved UserStats) (savedStreak : Saved StreakInfo) : list TodoAction :=
  dispatchSaved SET_TASKS savedTasks
    (dispatchSaved UPDATE_SETTINGS savedSettings
       (dispatchSaved UPDATE_STATS savedStats
          (dispatchSaved UPDATE_STREAK savedStreak []))).

(** The effects of the first render run in the order in which the provider
    declares them: the loader, the four writers to [localStorage] (which
    dispatch nothing), [calculateStats], [calculateStreak].  Each sees the
    state of the first render, [initialState]; the dispatches are queued and
    reduced in order for the second render. *)
Definition mountDispatches (tz now : Z) (savedTasks : Saved (list Task))
    (savedSettings : Saved SettingsUpdates) (savedStats : Saved UserStats)
    (savedStreak : Saved StreakInfo) : list TodoAction :=
  loadData savedTasks savedSettings savedStats savedStreak ++
  [UPDATE_STATS (calculateStats tz initialState);
   UPDATE_STREAK (calculateStreak tz now initialState)].

Definition mounted (tz now : Z) (savedTasks : Saved (list Task))
    (savedSettings : Saved SettingsUpdates) (savedStats : Saved UserStats)
    (savedStreak : Saved StreakInfo) : TodoState :=
  foldl (todoReducer now) initialState
    (mountDispatches tz now savedTasks savedSettings savedStats savedStreak).

(** What [JSON.stringify(state.settings)] parses back to: every key present. *)
Definition savedSettingsOf (s : AppSettings) : SettingsUpdates :=
  {| s_notifications := Some (notifications s);
     s_theme := Some (theme s);
     s_language := Some (language s) |}.

(** ** The dashboard: [recentTasks]

    [(a.dueDate?.getTime() || 0) - (b.dueDate?.getTime() || 0)] *)
Definition compareRecent (a b : Task) : Z :=
  default 0 (dueDate a) - default 0 (dueDate b).

(** [tasks.filter(task => !task.completed && task.dueDate).sort(...).slice(0, 5)] *)
Definition recentTasks (ts : list Task) : list Task :=
  take 5 (sortBy compareRecent (remindable ts)).

(** * Properties *)

(** ** Calendar facts *)

Lemma msPerDay_pos : 0 < msPerDay.
Proof. by vm_compute. Qed.

Lemma dateKey_startOfDay tz now : dateKey tz (startOfDay tz now) = dateKey tz now.
Proof.
  unfold startOfDay. unfold dateKey at 1.
  replace (dateKey tz now * msPerDay - tz + tz) with (dateKey tz now * msPerDay) by lia.
  apply Z.div_mul. pose proof msPerDay_pos. lia.
Qed.

(** East of Greenwich by less than a day (UTC included), the instant a key is
    parsed to falls on the day the key names. *)
Lemma dateKey_parseKey tz key : 0 ≤ tz < msPerDay → dateKey tz (parseKey key) = key.
Proof.
  intros Htz. unfold dateKey, parseKey.
  rewrite Z.div_add_l by (pose proof msPerDay_pos; lia).
  rewrite Z.div_small by done. lia.
Qed.

(** ** Store facts *)

Lemma setTasks_same state : setTasks state (tasks state) = state.
Proof. by destruct state. Qed.

Lemma filter_absent_id tid (ts : list Task) :
  tid ∉ (id <$> ts) → filter (λ task, id task ≠ tid) ts = ts.
Proof.
  induction ts as [|t ts IH]; intros Hnot; [done|].
  rewrite fmap_cons in Hnot. apply not_elem_of_cons in Hnot as [Hne Hrest].
  rewrite filter_cons_True by done. by rewrite IH.
Qed.

Lemma filter_id_twice tid (ts : list Task) :
  filter (λ task, id task ≠ tid) (filter (λ task, id task ≠ tid) ts)
  = filter (λ task, id task ≠ tid) ts.
Proof.
  induction ts as [|t ts IH]; [done|].
  destruct (decide (id t = tid)) as [Heq|Hne].
  - by rewrite filter_cons_False by (intros Hc; by apply Hc).
  - rewrite filter_cons_True by done. rewrite filter_cons_True by done. by rewrite IH.
Qed.

(** C7. For every state and every id that no task of the list carries, the
    delete command returns the state it was given: the task list and every
    other slice are unchanged.  Deleting an id a second time gives what
    deleting it once gave. *)
Theorem deleteTask_absent_noop_idempotent (now now' : Z) (tid : string) (state : TodoState) :
  (tid ∉ (id <$> tasks state) → deleteTask now tid state = state) ∧
  deleteTask now' tid (deleteTask now tid state) = deleteTask now tid state.
Proof.
  unfold deleteTask, todoReducer. split.
  - intros Hnot. rewrite filter_absent_id by done. apply setTasks_same.
  - unfold setTasks; simpl. by rewrite filter_id_twice.
Qed.

Lemma deleteTask_absent_noop_idempotent_witness :
  let state := stateOf [sampleTask "a" false None 1000] initialStreak in
  ("b" ∉ (id <$> tasks state)) ∧ deleteTask 2000 "b" state = state.
Proof.
  intros state.
  assert (Hnot : "b" ∉ (id <$> tasks state)).
  { intros Hin. apply list_elem_of_In in Hin. simpl in Hin.
    destruct Hin as [Hin|[]]. discriminate Hin. }
  split; [exact Hnot|].
  exact (proj1 (deleteTask_absent_noop_idempotent 2000 2000 "b" state) Hnot).
Defined.

(** ** Updates *)

Lemma id_applyUpdates now task u : id (applyUpdates now task u) = default (id task) (u_id u).
Proof. done. Qed.

(** C8 as stated fails: an [id] key in the partial fields replaces the
    identifier of the task. *)
Lemma updateTask_can_replace_id :
  let state := stateOf [sampleTask "a" false None 1000] initialStreak in
  let updates :=
    {| u_id := Some "b"; u_title := None; u_description := None; u_completed := None;
       u_priority := None; u_dueDate := None; u_createdAt := None; u_updatedAt := None |} in
  id <$> tasks state = ["a"] ∧ id <$> tasks (updateTask 2000 "a" updates state) = ["b"].
Proof. by vm_compute. Qed.

(** C8, amended. For every state and every partial-fields argument without an
    [id] key, the update command leaves the identifier of every task as it
    was; with an [id] key, every task the command updates gets that
    identifier. *)
Theorem updateTask_preserves_id (now : Z) (tid : string) (updates : TaskUpdates)
    (state : TodoState) :
  (u_id updates = None →
   id <$> tasks (updateTask now tid updates state) = id <$> tasks state) ∧
  (∀ new, u_id updates = Some new →
   id <$> tasks (updateTask now tid updates state)
   = (λ task, if decide (id task = tid) then new else id task) <$> tasks state).
Proof.
  unfold updateTask, todoReducer; simpl. split.
  - intros Hnone. rewrite <- list_fmap_compose. apply list_fmap_ext.
    intros i task _; simpl. case_decide; [|done].
    by rewrite id_applyUpdates, Hnone.
  - intros new Hsome. rewrite <- list_fmap_compose. apply list_fmap_ext.
    intros i task _; simpl. case_decide; [|done].
    by rewrite id_applyUpdates, Hsome.
Qed.

Lemma updateTask_preserves_id_witness :
  let state := stateOf [sampleTask "a" false None 1000] initialStreak in
  let updates :=
    {| u_id := None; u_title := Some "feed the cat"; u_description := None;
       u_completed := None; u_priority := Some high; u_dueDate := None;
       u_createdAt := None; u_updatedAt := None |} in
  u_id updates = None ∧
  id <$> tasks (updateTask 2000 "a" updates state) = id <$> tasks state.
Proof.
  intros state updates. split; [reflexivity|].
  exact (proj1 (updateTask_preserves_id 2000 "a" updates state) eq_refl).
Defined.

(** ** Settings *)

(** C10. The settings command merges one level deep.  For every
    partial-settings argument that carries a notifications sub-record, the
    stored sub-record after the command is the supplied one: a nested field
    (enabled, sound, reminder lead) that the argument leaves out is absent
    afterwards, whatever was stored before.  The top-level fields that the
    argument leaves out (theme, language) keep their values, and so do the
    other slices of the state. *)
Theorem updateSettings_merges_top_level (now : Z) (p : SettingsUpdates)
    (n : NotificationSettings) (state : TodoState) :
  s_notifications p = Some n →
  let after := updateSettings now p state in
  notifications (settings after) = n ∧
  (enabled n = None → enabled (notifications (settings after)) = None) ∧
  (soundEnabled n = None → soundEnabled (notifications (settings after)) = None) ∧
  (reminderTime n = None → reminderTime (notifications (settings after)) = None) ∧
  (s_theme p = None → theme (settings after) = theme (settings state)) ∧
  (s_language p = None → language (settings after) = language (settings state)) ∧
  tasks after = tasks state ∧ stats after = stats state ∧ streak after = streak state.
Proof.
  intros Hn after. subst after. unfold updateSettings, todoReducer, mergeSettings; simpl.
  rewrite Hn; simpl.
  repeat split; try done.
  - by intros ->.
  - by intros ->.
Qed.

Lemma updateSettings_merges_top_level_witness :
  let n := {| enabled := None; soundEnabled := Some false; reminderTime := None |} in
  let p := {| s_notifications := Some n; s_theme := None; s_language := None |} in
  let after := updateSettings 0 p initialState in
  s_notifications p = Some n ∧
  enabled (notifications (settings initialState)) = Some true ∧
  enabled (notifications (settings after)) = None ∧
  reminderTime (notifications (settings after)) = None ∧
  theme (settings after) = system.
Proof.
  intros n p after.
  pose proof (updateSettings_merges_top_level 0 p n initialState eq_refl) as H.
  simpl in H. destruct H as (_ & He & _ & Hr & Ht & _).
  split; [reflexivity|]. split; [reflexivity|].
  split; [exact (He eq_refl)|]. split; [exact (Hr eq_refl)|]. exact (Ht eq_refl).
Defined.

(** ** Toggling *)

(** C6 as stated fails: a toggle at the very instant recorded in [updatedAt]
    (the task was created or last changed within the same millisecond) leaves
    the timestamp equal, not strictly greater. *)
Lemma toggleTask_same_instant :
  let state := stateOf [taskA] initialStreak in
  tasks (toggleTask 5000 "a" state) = [toggled 5000 taskA] ∧
  ¬ (updatedAt taskA < updatedAt (toggled 5000 taskA)).
Proof. split; [by vm_compute|]. simpl. lia. Qed.

(** C6, amended. Toggling an id twice returns the completed flag of every
    task to its original value.  A single toggle at clock reading [now] flips
    the flag of each task with that id and sets its updatedAt to [now]; the
    timestamp is therefore strictly greater than before exactly when [now] is
    later than the previous updatedAt.  Tasks with another id are unchanged. *)
Theorem toggleTask_twice_and_timestamp (now now' : Z) (tid : string) (state : TodoState) :
  completed <$> tasks (toggleTask now' tid (toggleTask now tid state))
  = completed <$> tasks state ∧
  ∀ (i : nat) (task : Task), tasks state !! i = Some task →
    ∃ task', tasks (toggleTask now tid state) !! i = Some task' ∧
      (id task = tid →
         completed task' = negb (completed task) ∧ updatedAt task' = now ∧
         (updatedAt task < updatedAt task' ↔ updatedAt task < now)) ∧
      (id task ≠ tid → task' = task).
Proof.
  unfold toggleTask, todoReducer; simpl. split.
  - rewrite <- !list_fmap_compose. apply list_fmap_ext.
    intros i task _; simpl.
    destruct (decide (id task = tid)) as [Heq|Hne]; simpl.
    + rewrite decide_True by done. simpl. apply negb_involutive.
    + by rewrite decide_False by done.
  - intros i task Hi. rewrite list_lookup_fmap, Hi; simpl.
    eexists; split; [reflexivity|]. split.
    + intros Heq. rewrite decide_True by done. simpl. done.
    + intros Hne. by rewrite decide_False by done.
Qed.

Lemma toggleTask_twice_and_timestamp_witness :
  let state := stateOf [taskA] initialStreak in
  tasks state !! 0%nat = Some taskA ∧
  ∃ task', tasks (toggleTask 6000 "a" state) !! 0%nat = Some task' ∧
    completed task' = true ∧ updatedAt task' = 6000.
Proof.
  intros state. split; [reflexivity|].
  destruct (proj2 (toggleTask_twice_and_timestamp 6000 7000 "a" state) 0%nat taskA eq_refl)
    as (task' & Hlook & Hsame & _).
  exists task'. split; [exact Hlook|].
  destruct (Hsame eq_refl) as (Hc & Hu & _). split; [exact Hc|exact Hu].
Defined.

(** ** The streak engine: longest *)

Lemma longest_calculateStreak tz now state :
  longest (calculateStreak tz now state)
  = Z.max (longest (streak state)) (current (calculateStreak tz now state)).
Proof. done. Qed.

Lemma streak_recompute tz now state :
  streak (recompute tz now state) = calculateStreak tz now state.
Proof. done. Qed.

Lemma recomputeAll_snoc tz history step state :
  recomputeAll tz (history ++ [step]) state
  = recompute tz step.1 (setTasks (recomputeAll tz history state) step.2).
Proof. unfold recomputeAll. by rewrite foldl_app. Qed.

Lemma longest_recomputeAll tz history state :
  longest (streak state) ≤ longest (streak (recomputeAll tz history state)).
Proof.
  revert state. induction history as [|step history IH]; intros state; [done|].
  unfold recomputeAll; simpl. fold (recomputeAll tz history).
  etrans; [|apply IH].
  rewrite streak_recompute, longest_calculateStreak. simpl. lia.
Qed.

(** C3. After every streak recompute the new longest value is the maximum of
    the previous longest and the newly computed current, so longest is at least
    current and at least the previous longest.  Over any sequence of recomputes,
    whatever the task list and the clock at each of them, longest is at least
    current after each recompute and never decreases from one point of the
    sequence to a later one. *)
Theorem longest_max_monotone (tz : Z) :
  (∀ (now : Z) (state : TodoState),
     let s := calculateStreak tz now state in
     longest s = Z.max (longest (streak state)) (current s) ∧
     current s ≤ longest s ∧
     longest (streak state) ≤ longest s) ∧
  (∀ (history : list (Z * list Task)) (step : Z * list Task) (state : TodoState),
     let s := streak (recomputeAll tz (history ++ [step]) state) in
     current s ≤ longest s) ∧
  (∀ (history later : list (Z * list Task)) (state : TodoState),
     longest (streak (recomputeAll tz history state))
     ≤ longest (streak (recomputeAll tz (history ++ later) state))).
Proof.
  split; [|split].
  - intros now state s. subst s. rewrite longest_calculateStreak. lia.
  - intros history step state s. subst s.
    rewrite recomputeAll_snoc, streak_recompute, longest_calculateStreak. lia.
  - intros history later state.
    unfold recomputeAll at 2. rewrite foldl_app.
    apply (longest_recomputeAll tz later).
Qed.

(** ** The streak engine: today's bucket *)

Lemma dueOn_dueToday tz now task :
  dueOn tz (startOfDay tz now) task = true ↔ dueToday tz now task.
Proof.
  unfold dueOn, dueToday, isSameDay. rewrite dateKey_startOfDay.
  destruct (dueDate task) as [due|].
  - rewrite bool_decide_eq_true. split.
    + intros Heq. by exists due.
    + by intros (due' & [= <-] & Heq).
  - split; [done|]. by intros (due' & ? & _).
Qed.

Lemma allTodayTasksCompleted_qualifies tz now ts :
  allTodayTasksCompleted tz (startOfDay tz now) ts = true ↔ qualifies tz now ts.
Proof.
  unfold allTodayTasksCompleted, qualifies, todayTasks.
  rewrite andb_true_iff, bool_decide_eq_true, forallb_forall.
  split.
  - intros [Hlen Hall]. split.
    + destruct (filter _ ts) as [|task rest] eqn:Hf; [simpl in Hlen; lia|].
      exists task.
      assert (Hin : task ∈ filter (λ task, dueOn tz (startOfDay tz now) task = true) ts)
        by (rewrite Hf; left).
      apply list_elem_of_filter in Hin as [Hdue Hin].
      split; [done|]. by apply dueOn_dueToday.
    + intros task Hin Hdue. apply Hall. apply list_elem_of_In.
      apply list_elem_of_filter. split; [|done]. by apply dueOn_dueToday.
  - intros [(task & Hin & Hdue) Hall]. split.
    + assert (Hf : task ∈ filter (λ task, dueOn tz (startOfDay tz now) task = true) ts).
      { apply list_elem_of_filter. split; [|done]. by apply dueOn_dueToday. }
      destruct (filter _ ts); [by apply elem_of_nil in Hf|simpl; lia].
    + intros t Hin'. apply list_elem_of_In, list_elem_of_filter in Hin' as [Hd Hin'].
      apply Hall; [done|]. by apply dueOn_dueToday.
Qed.

Lemma elem_of_newDaysWithAllCompleted allDone todayKey recorded day :
  day ∈ newDaysWithAllCompleted allDone todayKey recorded
  ↔ (day = todayKey ∧ allDone = true) ∨ (day ≠ todayKey ∧ day ∈ recorded).
Proof.
  unfold newDaysWithAllCompleted.
  destruct allDone; simpl; case_bool_decide as Hin; simpl.
  - split; [|by intros [[-> _]|[_ ?]]].
    intros Hday. destruct (decide (day = todayKey)); [by left|by right].
  - rewrite elem_of_app, list_elem_of_singleton. split.
    + intros [Hday| ->]; [|by left]. right. split; [|done]. by intros ->.
    + intros [[-> _]|[_ ?]]; [by right|by left].
  - rewrite list_elem_of_filter. split; [by right|]. by intros [[_ ?]|?].
  - split; [|by intros [[_ ?]|[_ ?]]].
    intros Hday. right. split; [|done]. by intros ->.
Qed.

Lemma filter_newDaysWithAllCompleted allDone todayKey recorded :
  filter (λ day, day ≠ todayKey) (newDaysWithAllCompleted allDone todayKey recorded)
  = filter (λ day, day ≠ todayKey) recorded.
Proof.
  unfold newDaysWithAllCompleted.
  destruct allDone; simpl; case_bool_decide as Hin; simpl; try done.
  - rewrite filter_app, filter_cons_False by (intros Hc; by apply Hc).
    by rewrite filter_nil, app_nil_r.
  - rewrite list_filter_filter. apply list_filter_iff. intros day. tauto.
Qed.

Lemma elem_of_sortDays day days : day ∈ sortDays days ↔ day ∈ days.
Proof. unfold sortDays. by rewrite merge_sort_Permutation. Qed.

(** C4. On every streak recompute, today's day is in the new qualifying set
    exactly when some task is due today and every task due today is completed
    (so it is added when that holds, removed when it does not, and a day with
    no due task is never in it); every other day is in the new set exactly when
    it was in the recorded one, as often as it was there. *)
Theorem today_bucket_replaced (tz now : Z) (state : TodoState) :
  let today := dateKey tz now in
  let before := daysWithAllTasksCompleted (streak state) in
  let after := daysWithAllTasksCompleted (calculateStreak tz now state) in
  (today ∈ after ↔ qualifies tz now (tasks state)) ∧
  ((∀ task, task ∈ tasks state → ¬ dueToday tz now task) → today ∉ after) ∧
  (∀ day, day ≠ today → (day ∈ after ↔ day ∈ before)) ∧
  filter (λ day, day ≠ today) after ≡ₚ filter (λ day, day ≠ today) before.
Proof.
  intros today before after. subst today before after.
  unfold calculateStreak; simpl. rewrite dateKey_startOfDay.
  assert (Hiff : dateKey tz now
      ∈ sortDays (newDaysWithAllCompleted
           (allTodayTasksCompleted tz (startOfDay tz now) (tasks state))
           (dateKey tz now) (daysWithAllTasksCompleted (streak state)))
      ↔ qualifies tz now (tasks state)).
  { rewrite elem_of_sortDays, elem_of_newDaysWithAllCompleted.
    rewrite <- allTodayTasksCompleted_qualifies.
    split; [by intros [[_ ?]|[? _]]|by left]. }
  split; [exact Hiff|]. split; [|split].
  - intros Hnone Hin. apply Hiff in Hin as [(task & Hin & Hdue) _].
    by apply (Hnone task).
  - intros day Hne. rewrite elem_of_sortDays, elem_of_newDaysWithAllCompleted.
    split; [by intros [[? _]|[_ ?]]|by right].
  - unfold sortDays. rewrite merge_sort_Permutation.
    by rewrite filter_newDaysWithAllCompleted.
Qed.

Lemma today_bucket_replaced_witness :
  let now := noonOf 20000 in
  let state :=
    stateOf [sampleTask "a" true (Some (noonOf 20000)) 0;
             sampleTask "b" true (Some (now + 1)) 0]
            {| current := 0; longest := 0; lastCompletionDate := None;
               daysWithAllTasksCompleted := [19990] |} in
  qualifies 0 now (tasks state) ∧
  20000 ∈ daysWithAllTasksCompleted (calculateStreak 0 now state) ∧
  19990 ∈ daysWithAllTasksCompleted (calculateStreak 0 now state).
Proof.
  intros now state.
  assert (Hq : qualifies 0 now (tasks state)).
  { apply allTodayTasksCompleted_qualifies. by vm_compute. }
  destruct (today_bucket_replaced 0 now state) as (Htoday & _ & Hother & _).
  split; [exact Hq|]. split.
  - apply Htoday, Hq.
  - apply (Hother 19990); [by vm_compute|]. simpl. left.
Defined.

(** The scenario of the specification, evaluated: two completed tasks due
    today put today in the set; a third, incomplete task due today takes it out
    at the next recompute. *)
Example two_completed_then_a_third_open :
  let now := noonOf 20000 in
  let two := [sampleTask "a" true (Some now) 0; sampleTask "b" true (Some now) 0] in
  let first := recompute 0 now (stateOf two initialStreak) in
  let second :=
    recompute 0 (now + 1)
      (addTask "c" (now + 1) (now + 1)
         {| d_title := "call the bank"; d_description := None; d_completed := false;
            d_priority := low; d_dueDate := Some now |} first) in
  daysWithAllTasksCompleted (streak first) = [20000] ∧
  daysWithAllTasksCompleted (streak second) = [].
Proof. by vm_compute. Qed.

(** ** The streak engine: current *)

Lemma minusDays_0 today : minusDays today 0 = today.
Proof. unfold minusDays. lia. Qed.

Lemma streakEndingAt_last_not_today tz now sortedDays :
  0 ≤ tz < msPerDay →
  dateKey tz now ∉ sortedDays →
  streakEndingAt tz (startOfDay tz now) sortedDays = 0.
Proof.
  intros Htz Hnot. unfold streakEndingAt.
  destruct (last sortedDays) as [lastKey|] eqn:Hlast; [|done].
  case_bool_decide; [|done].
  apply last_Some in Hlast as [earlier ->].
  rewrite reverse_snoc. simpl.
  rewrite minusDays_0. unfold isSameDay.
  rewrite dateKey_parseKey, dateKey_startOfDay by done.
  rewrite bool_decide_eq_false_2; [done|].
  intros ->. apply Hnot. apply elem_of_app. right. left.
Qed.

(** C1, what the code does where the claim fails.  In a zone at or east of
    UTC, whenever today's day is not in the new qualifying set, the computed
    current streak is 0: the backward count starts at today, so a run that ends
    yesterday is not counted, although the guard before the loop lets it in. *)
Theorem current_zero_when_today_absent (tz now : Z) (state : TodoState) :
  0 ≤ tz < msPerDay →
  dateKey tz now ∉ daysWithAllTasksCompleted (calculateStreak tz now state) →
  current (calculateStreak tz now state) = 0.
Proof.
  intros Htz Hnot. unfold calculateStreak in *; simpl in *.
  by apply streakEndingAt_last_not_today.
Qed.

Lemma current_zero_when_today_absent_witness :
  let now := noonOf 20000 in
  let state :=
    stateOf [] {| current := 2; longest := 2; lastCompletionDate := Some (noonOf 19999);
                  daysWithAllTasksCompleted := [19998; 19999] |} in
  daysWithAllTasksCompleted (calculateStreak 0 now state) = [19998; 19999] ∧
  current (calculateStreak 0 now state) = 0.
Proof.
  intros now state. split; [by vm_compute|].
  apply (current_zero_when_today_absent 0 now state).
  - by vm_compute.
  - intros Hin. apply list_elem_of_In in Hin. vm_compute in Hin.
    destruct Hin as [Hin|[Hin|[]]]; discriminate Hin.
Defined.

(** Where the loop is right.  At or east of UTC, when the recorded days are
    distinct and none lies after today, the computed current streak is the
    number of consecutive calendar days, walking backward from today, that are
    present in the new qualifying set. *)

Lemma dateKey_minusDays tz now n :
  dateKey tz (minusDays (startOfDay tz now) n) = dateKey tz now - n.
Proof.
  unfold minusDays, startOfDay. unfold dateKey at 1.
  replace (dateKey tz now * msPerDay - tz - n * msPerDay + tz)
    with ((dateKey tz now - n) * msPerDay) by lia.
  apply Z.div_mul. pose proof msPerDay_pos. lia.
Qed.

Lemma consecutiveDaysBack_skip fuel day later days :
  day < later →
  consecutiveDaysBack fuel day (later :: days) = consecutiveDaysBack fuel day days.
Proof.
  revert day. induction fuel as [|fuel IH]; intros day Hlt; [done|].
  simpl. rewrite IH by lia.
  rewrite (bool_decide_ext (day ∈ later :: days) (day ∈ days)); [done|].
  rewrite elem_of_cons. split; [intros [->|?]; [lia|done]|by right].
Qed.

Lemma consecutiveDaysBack_absent fuel day days :
  day ∉ days → consecutiveDaysBack fuel day days = 0.
Proof. intros Hnot. destruct fuel; [done|]. simpl. by rewrite bool_decide_eq_false_2. Qed.

Lemma consecutiveDaysBack_ext fuel day days days' :
  (∀ d, d ∈ days ↔ d ∈ days') →
  consecutiveDaysBack fuel day days = consecutiveDaysBack fuel day days'.
Proof.
  intros Hsame. revert day. induction fuel as [|fuel IH]; intros day; [done|].
  simpl. rewrite IH. by rewrite (bool_decide_ext _ _ (Hsame day)).
Qed.

Lemma countBackwards_descending tz now days n :
  0 ≤ tz < msPerDay →
  StronglySorted (λ a b, b < a) days →
  (∀ d, d ∈ days → d ≤ dateKey tz now - n) →
  countBackwards tz (startOfDay tz now) days n
  = n + consecutiveDaysBack (length days) (dateKey tz now - n) days.
Proof.
  intros Htz. revert n. induction days as [|day earlier IH]; intros n Hsorted Hle.
  - simpl. lia.
  - apply StronglySorted_cons in Hsorted as [Hbelow Hsorted].
    rewrite Forall_forall in Hbelow.
    simpl countBackwards. simpl length. unfold isSameDay.
    rewrite dateKey_parseKey, dateKey_minusDays by done.
    case_bool_decide as Hday.
    + rewrite IH; [|done|].
      * simpl. rewrite bool_decide_eq_true_2 by (subst day; left).
        rewrite consecutiveDaysBack_skip by lia.
        replace (dateKey tz now - (n + 1)) with (dateKey tz now - n - 1) by lia. lia.
      * intros d Hd. specialize (Hbelow d Hd). lia.
    + rewrite consecutiveDaysBack_absent; [lia|].
      intros [Heq|Hin]%elem_of_cons; [by apply Hday|].
      specialize (Hbelow _ Hin). specialize (Hle day ltac:(left)). lia.
Qed.

Lemma reverse_strictly_descending (days : list Z) :
  StronglySorted Z.le days → NoDup days →
  StronglySorted (λ a b, b < a) (reverse days).
Proof.
  induction days as [|day later IH]; intros Hsorted Hnodup; [constructor|].
  apply StronglySorted_cons in Hsorted as [Hle Hsorted].
  apply NoDup_cons in Hnodup as [Hfresh Hnodup].
  rewrite Forall_forall in Hle.
  rewrite reverse_cons. apply StronglySorted_app_2.
  - intros x1 x2 Hx1 Hx2.
    rewrite elem_of_reverse in Hx1. apply list_elem_of_singleton in Hx2. subst x2.
    specialize (Hle _ Hx1). assert (day ≠ x1) by (by intros ->). lia.
  - by apply IH.
  - repeat constructor.
Qed.

Lemma NoDup_newDaysWithAllCompleted allDone todayKey recorded :
  NoDup recorded → NoDup (newDaysWithAllCompleted allDone todayKey recorded).
Proof.
  intros Hnodup. unfold newDaysWithAllCompleted.
  destruct allDone; simpl; case_bool_decide as Hin; simpl; try done.
  - apply NoDup_app. split; [done|]. split; [|apply NoDup_singleton].
    intros x Hx ->%list_elem_of_singleton. done.
  - by apply NoDup_filter.
Qed.

Lemma streakEndingAt_counts_back tz now sortedDays :
  0 ≤ tz < msPerDay →
  StronglySorted Z.le sortedDays → NoDup sortedDays →
  (∀ d, d ∈ sortedDays → d ≤ dateKey tz now) →
  streakEndingAt tz (startOfDay tz now) sortedDays
  = consecutiveDaysBack (length sortedDays) (dateKey tz now) sortedDays.
Proof.
  intros Htz Hsorted Hnodup Hpast.
  destruct (decide (dateKey tz now ∈ sortedDays)) as [Hin|Hnot].
  - unfold streakEndingAt.
    destruct (last sortedDays) as [lastKey|] eqn:Hlast.
    + assert (Hdiff : (startOfDay tz now - parseKey lastKey) `div` msPerDay ≤ 1).
      { apply last_Some in Hlast as [earlier ->].
        assert (dateKey tz now ≤ lastKey).
        { apply elem_of_app in Hin as [Hin| ->%list_elem_of_singleton]; [|done].
          by apply (StronglySorted_app_1_elem_of _ _ _ _ _ Hsorted Hin), list_elem_of_singleton. }
        pose proof msPerDay_pos.
        apply Z.div_le_upper_bound; [done|].
        unfold startOfDay, parseKey. nia. }
      rewrite bool_decide_eq_true_2 by done.
      rewrite (countBackwards_descending tz now (reverse sortedDays) 0); try done.
      * rewrite length_reverse, Z.sub_0_r, Z.add_0_l.
        apply consecutiveDaysBack_ext. intros d. apply elem_of_reverse.
      * by apply reverse_strictly_descending.
      * intros d Hd. rewrite elem_of_reverse in Hd. specialize (Hpast d Hd). lia.
    + apply last_None in Hlast. subst sortedDays. by apply elem_of_nil in Hin.
  - rewrite streakEndingAt_last_not_today, consecutiveDaysBack_absent by done. done.
Qed.

Lemma current_counts_back_from_today tz now state :
  0 ≤ tz < msPerDay →
  NoDup (daysWithAllTasksCompleted (streak state)) →
  (∀ d, d ∈ daysWithAllTasksCompleted (streak state) → d ≤ dateKey tz now) →
  let after := daysWithAllTasksCompleted (calculateStreak tz now state) in
  NoDup after ∧ (∀ d, d ∈ after → d ≤ dateKey tz now) ∧
  current (calculateStreak tz now state)
  = consecutiveDaysBack (length after) (dateKey tz now) after.
Proof.
  intros Htz Hnodup Hpast after. subst after.
  unfold calculateStreak; simpl. rewrite dateKey_startOfDay.
  set (new := newDaysWithAllCompleted _ _ _).
  assert (Hnodup' : NoDup (sortDays new)).
  { unfold sortDays. rewrite merge_sort_Permutation.
    by apply NoDup_newDaysWithAllCompleted. }
  assert (Hpast' : ∀ d, d ∈ sortDays new → d ≤ dateKey tz now).
  { intros d. rewrite elem_of_sortDays. unfold new.
    rewrite elem_of_newDaysWithAllCompleted.
    intros [[-> _]|[_ Hd]]; [done|by apply Hpast]. }
  split; [done|]. split; [done|].
  apply streakEndingAt_counts_back; try done.
  unfold sortDays. apply StronglySorted_merge_sort; apply _.
Qed.

(** The second half of the scenario, evaluated in UTC: with the two days
    before today recorded and today qualifying, current is 3 and longest is the
    maximum of the previous longest and 3. *)
Example streak_of_three (previous : Z) :
  let now := noonOf 20000 in
  let state :=
    stateOf [sampleTask "a" true (Some now) 0]
            {| current := 0; longest := previous; lastCompletionDate := None;
               daysWithAllTasksCompleted := [19998; 19999] |} in
  current (calculateStreak 0 now state) = 3 ∧
  longest (calculateStreak 0 now state) = Z.max previous 3.
Proof.
  intros now state.
  assert (Hc : current (calculateStreak 0 now state) = 3) by (by vm_compute).
  split; [exact Hc|]. by rewrite longest_calculateStreak, Hc.
Qed.

(** West of UTC the parsed key falls on the eve of the day it names, and the
    count stops at once: the same scenario five hours west gives 0. *)
Example streak_of_three_west_of_utc :
  let tz := - 5 * 60 * msPerMinute in
  let now := noonOf 20000 in
  let state :=
    stateOf [sampleTask "a" true (Some now) 0]
            {| current := 0; longest := 0; lastCompletionDate := None;
               daysWithAllTasksCompleted := [19998; 19999] |} in
  daysWithAllTasksCompleted (calculateStreak tz now state) = [19998; 19999; 20000] ∧
  current (calculateStreak tz now state) = 0.
Proof. by vm_compute. Qed.

(** ** The statistics engine *)

Lemma lookup_countTask tz daily task day :
  countTask tz daily task !! day
  = if decide (dateKey tz (createdAt task) = day)
    then Some (default 0 (daily !! day) + (if completed task then 1 else 0))
    else daily !! day.
Proof.
  unfold countTask. case_decide as Hday.
  - subst day. set (key := dateKey tz (createdAt task)).
    destruct (daily !! key) as [n|] eqn:Hkey.
    + case_decide as Hn.
      * subst n. destruct (completed task).
        -- by rewrite lookup_insert_eq, lookup_insert_eq.
        -- rewrite lookup_insert_eq. simpl. f_equal.
      * destruct (completed task).
        -- by rewrite lookup_insert_eq, Hkey.
        -- rewrite Hkey. simpl. f_equal. lia.
    + destruct (completed task).
      * by rewrite lookup_insert_eq, lookup_insert_eq.
      * rewrite lookup_insert_eq. simpl. f_equal.
  - set (key := dateKey tz (createdAt task)) in *.
    assert (Hbucket :
      match daily !! key with
      | Some n => if decide (n = 0) then <[key:=0]> daily else daily
      | None => <[key:=0]> daily
      end !! day = daily !! day).
    { destruct (daily !! key) as [n|]; [case_decide|]; by rewrite ?lookup_insert_ne. }
    destruct (completed task); [|exact Hbucket].
    by rewrite lookup_insert_ne.
Qed.

Lemma completedCreatedOn_cons tz day task ts :
  completedCreatedOn tz day (task :: ts)
  = (if decide (dateKey tz (createdAt task) = day)
     then (if completed task then 1 else 0) else 0)
    + completedCreatedOn tz day ts.
Proof.
  unfold completedCreatedOn. case_decide as Hday.
  - destruct (completed task) eqn:Hc.
    + rewrite filter_cons_True by done. simpl length. lia.
    + rewrite filter_cons_False; [lia|]. intros [_ ?]. congruence.
  - rewrite filter_cons_False; [lia|]. by intros [? _].
Qed.

Lemma lookup_foldl_countTask tz ts (daily : gmap Z Z) day :
  foldl (countTask tz) daily ts !! day
  = match daily !! day with
    | Some n => Some (n + completedCreatedOn tz day ts)
    | None =>
        if bool_decide (Exists (λ task, dateKey tz (createdAt task) = day) ts)
        then Some (completedCreatedOn tz day ts)
        else None
    end.
Proof.
  revert daily. induction ts as [|task ts IH]; intros daily.
  - simpl foldl. unfold completedCreatedOn. rewrite filter_nil. simpl length.
    destruct (daily !! day) as [n|]; [f_equal; lia|].
    rewrite bool_decide_eq_false_2; [done|]. by intros ?%Exists_nil.
  - simpl foldl. rewrite IH, lookup_countTask, completedCreatedOn_cons.
    case_decide as Hday.
    + rewrite (bool_decide_eq_true_2 (Exists _ (task :: ts))) by (by left).
      destruct (daily !! day) as [n|]; simpl; f_equal; lia.
    + destruct (daily !! day) as [n|]; [f_equal; lia|].
      rewrite Z.add_0_l.
      rewrite (bool_decide_ext
                 (Exists (λ t, dateKey tz (createdAt t) = day) (task :: ts))
                 (Exists (λ t, dateKey tz (createdAt t) = day) ts)); [done|].
      rewrite Exists_cons. tauto.
Qed.

(** C9 as stated fails: the bucket of a day counts the completed tasks
    created that day, not the tasks created that day, and the per-week map is
    never filled.  One open and one completed task created on the same day give
    1 for that day, and an empty per-week map. *)
Lemma dailyCompletion_counts_completed_only :
  let state :=
    stateOf [sampleTask "a" false None (noonOf 3); sampleTask "b" true None (noonOf 3)]
            initialStreak in
  length (filter (λ task, dateKey 0 (createdAt task) = 3) (tasks state)) = 2%nat ∧
  dailyCompletion (calculateStats 0 state) !! 3 = Some 1 ∧
  completedTasks (calculateStats 0 state) = 1 ∧
  weeklyCompletion (calculateStats 0 state) = ∅.
Proof. by vm_compute. Qed.

(** C9, amended. After every stats recompute the new record has totalTasks
    equal to the number of tasks and completedTasks equal to the number of
    completed tasks; the per-day map has an entry exactly for the days on which
    some task was created, holding the number of completed tasks created that
    day; the per-week map is empty; the two streak fields copy the stored
    streak. *)
Theorem calculateStats_counts (tz : Z) (state : TodoState) :
  let s := calculateStats tz state in
  totalTasks s = Z.of_nat (length (tasks state)) ∧
  completedTasks s
  = Z.of_nat (length (filter (λ task, completed task = true) (tasks state))) ∧
  (∀ day,
     dailyCompletion s !! day
     = if bool_decide (Exists (λ task, dateKey tz (createdAt task) = day) (tasks state))
       then Some (completedCreatedOn tz day (tasks state))
       else None) ∧
  weeklyCompletion s = ∅ ∧
  currentStreak s = current (streak state) ∧
  longestStreak s = longest (streak state).
Proof.
  intros s. subst s. unfold calculateStats; simpl.
  repeat split; try done.
  intros day. by rewrite lookup_foldl_countTask, lookup_empty.
Qed.

(** ** The reminder timers *)

Lemma notificationTimeouts_cleared (timers : Timers) (tid : string) :
  notificationTimeouts
    match notificationTimeouts timers !! tid with
    | Some existingTimeout => clearTimeout existingTimeout timers
    | None => timers
    end
  = notificationTimeouts timers.
Proof. by destruct (notificationTimeouts timers !! tid). Qed.

Lemma armed_cleared (timers : Timers) (tid : string) :
  armed tid
    match notificationTimeouts timers !! tid with
    | Some existingTimeout => clearTimeout existingTimeout timers
    | None => timers
    end
  = None.
Proof.
  unfold armed. rewrite notificationTimeouts_cleared.
  destruct (notificationTimeouts timers !! tid) as [handle|] eqn:Hh; simpl; [|done].
  apply lookup_delete_eq.
Qed.

Lemma hostDelay_in_range delay : 0 ≤ delay ≤ maxDelay → hostDelay delay = delay.
Proof.
  intros Hrange. unfold hostDelay, toInt32, maxDelay in *.
  Z.to_euclidean_division_equations. lia.
Qed.

Lemma hostDelay_overflow delay : maxDelay < delay < 4294967296 → hostDelay delay = 0.
Proof.
  intros Hrange. unfold hostDelay, toInt32, maxDelay in *.
  Z.to_euclidean_division_equations. lia.
Qed.

(** C5, what the code does where the claim fails.  For every task with a due
    date, with notifications enabled and a reminder lead of [lead] minutes,
    scheduling the task at clock reading [now] leaves a timer armed under the
    task's id exactly when the fire time [dueDate - lead] minutes is strictly
    later than [now], and asks the host for the delay [fire - now].  The timer
    is due at the fire time when that delay is at most 2^31 - 1 ms.  The delay
    is passed to the host as it is: when it is larger, and below 2^32 ms, the
    host keeps 0 and the reminder is due at once, not at the fire time.  (The
    hook schedules the tasks that are not completed; the statement does not
    depend on the flag.) *)
Theorem scheduleNotification_fires_at_once_beyond_host_range (settings : AppSettings)
    (now : Z) (task : Task) (timers : Timers) (due lead : Z) :
  dueDate task = Some due →
  enabled (notifications settings) = Some true →
  reminderTime (notifications settings) = Some lead →
  let fire := due - lead * msPerMinute in
  let after := scheduleNotification settings now task timers in
  (is_Some (armed (id task) after) ↔ now < fire) ∧
  (now < fire →
   armed (id task) after
   = Some {| fireAt := now + hostDelay (fire - now); subject := task |}) ∧
  (now < fire → fire - now ≤ maxDelay →
   armed (id task) after = Some {| fireAt := fire; subject := task |}) ∧
  (maxDelay < fire - now < 4294967296 →
   armed (id task) after = Some {| fireAt := now; subject := task |}).
Proof.
  intros Hdue Hen Hlead fire after.
  assert (Harmed : now < fire →
    armed (id task) after
    = Some {| fireAt := now + hostDelay (fire - now); subject := task |}).
  { intros Hlt. subst after. unfold scheduleNotification.
    rewrite Hdue, Hen, Hlead. simpl.
    assert (Hfire : addMinutes due (- lead) = fire) by (unfold addMinutes, fire; lia).
    rewrite Hfire. unfold isBefore. rewrite bool_decide_eq_true_2 by done.
    unfold armed; simpl. rewrite lookup_insert_eq; simpl.
    by rewrite lookup_insert_eq. }
  assert (Hnone : ¬ now < fire → armed (id task) after = None).
  { intros Hge. subst after. unfold scheduleNotification.
    rewrite Hdue, Hen, Hlead. simpl.
    assert (Hfire : addMinutes due (- lead) = fire) by (unfold addMinutes, fire; lia).
    rewrite Hfire. unfold isBefore. rewrite bool_decide_eq_false_2 by done.
    apply armed_cleared. }
  split; [|split; [exact Harmed|split]].
  - split.
    + intros Hsome. destruct (decide (now < fire)) as [|Hge]; [done|].
      rewrite (Hnone Hge) in Hsome. by destruct Hsome.
    + intros Hlt. rewrite (Harmed Hlt). by eexists.
  - intros Hlt Hrange. rewrite (Harmed Hlt).
    rewrite hostDelay_in_range by lia. do 2 f_equal. lia.
  - intros Hrange. rewrite Harmed by (unfold maxDelay in Hrange; lia).
    rewrite hostDelay_overflow by done. do 2 f_equal. lia.
Qed.

(** A task due in 30 days with a lead of 15 minutes: the delay, 2591100000 ms,
    is beyond the host's range, and the reminder is due now. *)
Lemma scheduleNotification_fires_at_once_beyond_host_range_witness :
  let now := noonOf 20000 in
  let task := sampleTask "a" false (Some (now + 30 * msPerDay)) 0 in
  let timers := {| pending := ∅; nextHandle := 1%positive; notificationTimeouts := ∅ |} in
  maxDelay < now + 30 * msPerDay - 15 * msPerMinute - now < 4294967296 ∧
  armed "a" (scheduleNotification initialSettings now task timers)
  = Some {| fireAt := now; subject := task |}.
Proof.
  intros now task timers.
  assert (Hrange : maxDelay < now + 30 * msPerDay - 15 * msPerMinute - now < 4294967296)
    by (by vm_compute).
  split; [exact Hrange|].
  exact (proj2 (proj2 (proj2
           (scheduleNotification_fires_at_once_beyond_host_range initialSettings now task
              timers (now + 30 * msPerDay) 15 eq_refl eq_refl eq_refl))) Hrange).
Defined.

(** The first scenario of the specification: due in 20 minutes with a lead of
    15 minutes, the timer is due 5 minutes from now. *)
Example timer_five_minutes_from_now :
  let now := noonOf 20000 in
  let task := sampleTask "a" false (Some (now + 20 * msPerMinute)) 0 in
  let timers := {| pending := ∅; nextHandle := 1%positive; notificationTimeouts := ∅ |} in
  armed "a" (scheduleNotification initialSettings now task timers)
  = Some {| fireAt := now + 5 * msPerMinute; subject := task |}.
Proof. by vm_compute. Qed.

(** The second scenario: due in 10 minutes with a lead of 15 minutes, no timer
    is armed, and a timer armed earlier for the task is cleared. *)
Example no_timer_when_fire_time_passed :
  let now := noonOf 20000 in
  let task := sampleTask "a" false (Some (now + 10 * msPerMinute)) 0 in
  let fresh := {| pending := ∅; nextHandle := 1%positive; notificationTimeouts := ∅ |} in
  let earlier :=
    scheduleNotification initialSettings (now - 60 * msPerMinute) task fresh in
  armed "a" (scheduleNotification initialSettings now task fresh) = None ∧
  is_Some (armed "a" earlier) ∧
  armed "a" (scheduleNotification initialSettings now task earlier) = None.
Proof.
  intros now task fresh earlier. split; [by vm_compute|]. split; [|by vm_compute].
  by eexists; vm_compute.
Qed.

(** ** Validation *)

(** C2 as stated fails: the commands of the store do not look at the title.
    [addTask] with an empty title commits a task with that title, and
    [updateTask] with an empty title stores it. *)
Lemma store_commands_accept_empty_title :
  let updates :=
    {| u_id := None; u_title := Some ""; u_description := None; u_completed := None;
       u_priority := None; u_dueDate := None; u_createdAt := None; u_updatedAt := None |} in
  d_title emptyTitleData = "" ∧
  title <$> tasks (addTask "id-1" 1000 1000 emptyTitleData initialState) = [""] ∧
  addTask "id-1" 1000 1000 emptyTitleData initialState ≠ initialState ∧
  title <$> tasks (updateTask 6000 "a" updates (stateOf [taskA] initialStreak)) = [""].
Proof.
  intros updates. split; [done|]. split; [by vm_compute|]. split; [|by vm_compute].
  intros Heq. apply (f_equal tasks) in Heq. vm_compute in Heq. discriminate Heq.
Qed.

(** C2, amended. The check is in the form.  For every submission, for a new
    task or for an edited one, whose title is empty after trimming, the
    validation reports that the title is required and the submit handler returns
    without calling a command: the state (task list, settings, stats, streak) is
    the one before.  The create command itself appends the task it is given,
    whatever its title. *)
Theorem blank_title_stops_at_the_form (tz checked : Z) (newId : string)
    (created updated : Z) (task : option Task) (formData : TaskFormData)
    (taskData : TaskData) (state : TodoState) :
  (trim (f_title formData) = "" →
   e_title (validateForm tz checked formData) = Some "Title is required" ∧
   noErrors (validateForm tz checked formData) = false ∧
   handleSubmit tz checked newId created updated task formData state = state) ∧
  title <$> tasks (addTask newId created updated taskData state)
  = (title <$> tasks state) ++ [d_title taskData].
Proof.
  split.
  - intros Hblank.
    assert (Htitle : e_title (validateForm tz checked formData) = Some "Title is required").
    { unfold validateForm; simpl. by rewrite decide_True. }
    assert (Hno : noErrors (validateForm tz checked formData) = false).
    { unfold noErrors. by rewrite Htitle. }
    split; [exact Htitle|]. split; [exact Hno|].
    unfold handleSubmit. by rewrite Hno.
  - unfold addTask, todoReducer; simpl. by rewrite fmap_app.
Qed.

Lemma blank_title_stops_at_the_form_witness :
  trim (f_title blankForm) = "" ∧
  handleSubmit 0 1000 "id-1" 1000 1000 None blankForm initialState = initialState.
Proof.
  split; [reflexivity|].
  exact (proj2 (proj2 (proj1 (blank_title_stops_at_the_form 0 1000 "id-1" 1000 1000 None
                                blankForm emptyTitleData initialState) eq_refl))).
Defined.

(** A submission with a title goes through to the store. *)
Example titled_submission_commits :
  let form :=
    {| f_title := " pay rent "; f_description := ""; f_priority := high;
       f_dueDate := Some 20001; f_dueTime := None |} in
  tasks (handleSubmit 0 (noonOf 20000) "id-1" 1000 1000 None form initialState)
  = [ {| id := "id-1"; title := "pay rent"; description := Some ""; completed := false;
         priority := high; dueDate := Some (20001 * msPerDay + (23 * 60 + 59) * msPerMinute);
         createdAt := 1000; updatedAt := 1000 |} ].
Proof. by vm_compute. Qed.

(** * Further properties of the code *)

(** ** The reminder timers: one call *)

Lemma armed_scheduleNotification_same settings now task t :
  armed (id task) (scheduleNotification settings now task t)
  = armedBy settings now task (armed (id task) t).
Proof.
  unfold scheduleNotification, armedBy.
  destruct (dueDate task) as [due|]; [|done].
  destruct (default false (enabled (notifications settings))); simpl; [|done].
  destruct (reminderTime (notifications settings)) as [lead|]; simpl;
    [|apply armed_cleared].
  assert (Hfire : addMinutes due (- lead) = due - lead * msPerMinute)
    by (unfold addMinutes; lia).
  rewrite Hfire. unfold isBefore. case_bool_decide; [|apply armed_cleared].
  unfold armed; simpl. rewrite lookup_insert_eq; simpl.
  by rewrite lookup_insert_eq.
Qed.

Lemma armed_clearTimeout_other (t : Timers) (tid tid' : string) (handle : positive) :
  tableOk t → tid ≠ tid' → notificationTimeouts t !! tid' = Some handle →
  armed tid (clearTimeout handle t) = armed tid t.
Proof.
  intros [_ Hinj] Hne Hhandle. unfold armed; simpl.
  destruct (notificationTimeouts t !! tid) as [handle'|] eqn:Htid; simpl; [|done].
  apply lookup_delete_ne. intros ->. apply Hne. by apply (Hinj _ _ handle').
Qed.

Lemma armed_cleared_other (t : Timers) (tid tid' : string) :
  tableOk t → tid ≠ tid' →
  armed tid
    match notificationTimeouts t !! tid' with
    | Some existingTimeout => clearTimeout existingTimeout t
    | None => t
    end
  = armed tid t.
Proof.
  intros Hok Hne.
  destruct (notificationTimeouts t !! tid') as [handle|] eqn:Hh; [|done].
  by apply (armed_clearTimeout_other t tid tid').
Qed.

Lemma nextHandle_cleared (t : Timers) (tid : string) :
  nextHandle
    match notificationTimeouts t !! tid with
    | Some existingTimeout => clearTimeout existingTimeout t
    | None => t
    end
  = nextHandle t.
Proof. by destruct (notificationTimeouts t !! tid). Qed.

Lemma tableOk_cleared (t : Timers) (tid : string) :
  tableOk t →
  tableOk
    match notificationTimeouts t !! tid with
    | Some existingTimeout => clearTimeout existingTimeout t
    | None => t
    end.
Proof. by destruct (notificationTimeouts t !! tid). Qed.

Lemma armed_scheduleNotification_other settings now task t tid :
  tableOk t → tid ≠ id task →
  armed tid (scheduleNotification settings now task t) = armed tid t.
Proof.
  intros Hok Hne. unfold scheduleNotification.
  destruct (dueDate task) as [due|]; [|done].
  destruct (negb _); [done|].
  set (cleared :=
         match notificationTimeouts t !! id task with
         | Some existingTimeout => clearTimeout existingTimeout t
         | None => t
         end).
  assert (Hcleared : armed tid cleared = armed tid t) by (by apply armed_cleared_other).
  destruct (_ <$> reminderTime _) as [at_|]; [|done].
  destruct (isBefore now at_); [|done].
  rewrite <- Hcleared. unfold armed; simpl.
  rewrite lookup_insert_ne by done.
  destruct (notificationTimeouts cleared !! tid) as [handle|] eqn:Htid; simpl; [|done].
  apply lookup_insert_ne.
  assert (Hlt : (handle < nextHandle cleared)%positive).
  { apply (tableOk_cleared t (id task)) in Hok. by apply (proj1 Hok tid). }
  lia.
Qed.

Lemma tableOk_scheduleNotification settings now task t :
  tableOk t → tableOk (scheduleNotification settings now task t).
Proof.
  intros Hok. unfold scheduleNotification.
  destruct (dueDate task) as [due|]; [|done].
  destruct (negb _); [done|].
  pose proof (tableOk_cleared t (id task) Hok) as Hok'.
  set (cleared :=
         match notificationTimeouts t !! id task with
         | Some existingTimeout => clearTimeout existingTimeout t
         | None => t
         end) in *.
  destruct (_ <$> reminderTime _) as [at_|]; [|done].
  destruct (isBefore now at_); [|done].
  destruct Hok' as [Hlt Hinj]. split; simpl.
  - intros tid handle. rewrite lookup_insert. case_decide.
    + intros [= <-]. lia.
    + intros Hh. specialize (Hlt _ _ Hh). lia.
  - intros tid tid' handle. rewrite !lookup_insert.
    repeat case_decide; subst; try done.
    + intros [= <-] Hh. specialize (Hlt _ _ Hh). lia.
    + intros Hh [= <-]. specialize (Hlt _ _ Hh). lia.
    + apply Hinj.
Qed.

(** ** The reminder timers: a pass over the tasks *)

Lemma tableOk_scheduleCalls settings calls t :
  tableOk t → tableOk (scheduleCalls settings calls t).
Proof.
  revert t. induction calls as [|call calls IH]; intros t Hok; [done|].
  simpl. apply IH. by apply tableOk_scheduleNotification.
Qed.

Lemma scheduleCalls_snoc settings calls call t :
  scheduleCalls settings (calls ++ [call]) t
  = scheduleNotification settings call.1 call.2 (scheduleCalls settings calls t).
Proof. unfold scheduleCalls. by rewrite foldl_app. Qed.

Lemma armed_scheduleCalls_other settings calls t tid :
  tableOk t → (∀ call, call ∈ calls → id call.2 ≠ tid) →
  armed tid (scheduleCalls settings calls t) = armed tid t.
Proof.
  revert t. induction calls as [|call calls IH]; intros t Hok Hnot; [done|].
  simpl. rewrite IH.
  - apply armed_scheduleNotification_other; [done|].
    intros ->. by apply (Hnot call); [left|].
  - by apply tableOk_scheduleNotification.
  - intros c Hc. apply Hnot. by right.
Qed.

Lemma armed_scheduleCalls_at settings calls t i now task :
  tableOk t → calls !! i = Some (now, task) →
  (∀ j call, (i < j)%nat → calls !! j = Some call → id call.2 ≠ id task) →
  armed (id task) (scheduleCalls settings calls t)
  = armedBy settings now task (armed (id task) (scheduleCalls settings (take i calls) t)).
Proof.
  intros Hok Hi Hlater.
  rewrite <- (take_drop_middle calls i (now, task) Hi) at 1.
  unfold scheduleCalls at 1. rewrite foldl_app. simpl.
  fold (scheduleCalls settings (take i calls) t).
  fold (scheduleCalls settings (drop (S i) calls)
          (scheduleNotification settings now task (scheduleCalls settings (take i calls) t))).
  rewrite armed_scheduleCalls_other.
  - apply armed_scheduleNotification_same.
  - by apply tableOk_scheduleNotification, tableOk_scheduleCalls.
  - intros call [k Hk]%list_elem_of_lookup.
    rewrite lookup_drop in Hk. apply (Hlater (S i + k)%nat); [lia|done].
Qed.

(** ** The reminder timers: cleanup and resync *)

Lemma foldr_clearTimeout (entries : list (string * positive)) (t : Timers) :
  let cleared :=
    foldr (uncurry (λ (_ : string) timeout acc, clearTimeout timeout acc)) t entries in
  nextHandle cleared = nextHandle t ∧
  ∀ handle, pending cleared !! handle
            = if decide (handle ∈ entries.*2) then None else pending t !! handle.
Proof.
  induction entries as [|[tid h] entries [IHnext IHpending]].
  - split; [done|]. intros handle. simpl foldr. case_decide as Hin; [|done].
    by apply elem_of_nil in Hin.
  - split; [done|]. intros handle. simpl foldr. unfold uncurry at 1. simpl pending.
    destruct (decide (handle = h)) as [->|Hne].
    + rewrite lookup_delete_eq. case_decide as Hin; [done|].
      exfalso. apply Hin. rewrite fmap_cons. left.
    + rewrite lookup_delete_ne by done. rewrite IHpending.
      rewrite fmap_cons. simpl.
      repeat case_decide; try done.
      * exfalso. match goal with H : ¬ _ |- _ => apply H end. by right.
      * exfalso. match goal with H : _ ∈ _ :: _ |- _ =>
                   apply elem_of_cons in H as [?|?] end; done.
Qed.

Lemma pending_cleanup (t : Timers) (handle : positive) :
  pending (cleanup t) !! handle
  = if decide (handle ∈ (map_to_list (notificationTimeouts t)).*2)
    then None else pending t !! handle.
Proof.
  unfold cleanup; simpl. rewrite map_fold_foldr.
  destruct (foldr_clearTimeout (map_to_list (notificationTimeouts t)) t) as [_ Hp].
  apply (Hp handle).
Qed.

Lemma stored_handle (t : Timers) (handle : positive) :
  handle ∈ (map_to_list (notificationTimeouts t)).*2
  ↔ ∃ tid, notificationTimeouts t !! tid = Some handle.
Proof.
  rewrite list_elem_of_fmap. split.
  - intros ([tid h] & -> & Hin). exists tid. by apply elem_of_map_to_list.
  - intros [tid Htid]. exists (tid, handle). split; [done|].
    by apply elem_of_map_to_list.
Qed.

Lemma tableOk_cleanup (t : Timers) : tableOk (cleanup t).
Proof. split; intros ?; intros; simplify_map_eq. Qed.

Lemma armed_cleanup (t : Timers) (tid : string) : armed tid (cleanup t) = None.
Proof. unfold armed; simpl. by rewrite lookup_empty. Qed.

(** X1. The cleanup clears exactly the timeouts of the table: afterwards the
    table is empty and no id has a timer armed, every host timeout whose handle
    was stored in the table is gone, and every other host timeout is still
    pending. *)
Theorem cleanup_clears_the_table (t : Timers) :
  notificationTimeouts (cleanup t) = ∅ ∧
  (∀ tid, armed tid (cleanup t) = None) ∧
  (∀ tid handle, notificationTimeouts t !! tid = Some handle →
     pending (cleanup t) !! handle = None) ∧
  (∀ handle, (∀ tid, notificationTimeouts t !! tid ≠ Some handle) →
     pending (cleanup t) !! handle = pending t !! handle).
Proof.
  split; [done|]. split; [apply armed_cleanup|]. split.
  - intros tid handle Hh. rewrite pending_cleanup. rewrite decide_True; [done|].
    apply stored_handle. by exists tid.
  - intros handle Hfree. rewrite pending_cleanup. rewrite decide_False; [done|].
    intros [tid Htid]%stored_handle. by apply (Hfree tid).
Qed.

Lemma cleanup_clears_the_table_witness :
  let other := {| fireAt := 10000; subject := taskA |} in
  let t := {| pending := {[ 1%positive := {| fireAt := 5; subject := taskA |};
                            7%positive := other ]};
              nextHandle := 8%positive;
              notificationTimeouts := {[ "a" := 1%positive ]} |} in
  notificationTimeouts t !! "a" = Some 1%positive ∧
  pending (cleanup t) !! 1%positive = None ∧
  pending (cleanup t) !! 7%positive = Some other.
Proof.
  intros other t.
  destruct (cleanup_clears_the_table t) as (_ & _ & Hgone & Hkept).
  split; [reflexivity|]. split.
  - exact (Hgone "a" 1%positive eq_refl).
  - rewrite (Hkept 7%positive); [reflexivity|].
    intros tid Htid. unfold t in Htid. simpl in Htid.
    apply lookup_singleton_Some in Htid as [_ Htid]. discriminate Htid.
Defined.

Lemma lookup_scheduled_calls (clock : nat → Z) (ts : list Task) (i : nat) :
  imap (λ i task, (clock i, task)) ts !! i = (λ task, (clock i, task)) <$> ts !! i.
Proof. apply (list_lookup_imap (λ i task, (clock i, task))). Qed.

Lemma NoDup_remindable_ids (ts : list Task) :
  NoDup (id <$> ts) → NoDup (id <$> remindable ts).
Proof.
  intros Hnodup. apply (sublist_NoDup _ (id <$> ts)); [done|].
  apply fmap_sublist. apply sublist_filter.
Qed.

(** X2. With notifications enabled and a reminder lead, and task ids
    distinct, a resync leaves under the id of each task that is not completed
    and has a due date a timer if the fire time [dueDate - lead] minutes is
    later than the clock reading of the task's call, and no timer otherwise,
    whatever timers were armed before.  The timer is due after the delay the
    host keeps of [fire - clock]: at the fire time when that delay is at most
    2^31 - 1 ms. *)
Theorem resync_arms_each_remindable_task (settings : AppSettings) (clock : nat → Z)
    (ts : list Task) (t : Timers) (lead : Z) :
  enabled (notifications settings) = Some true →
  reminderTime (notifications settings) = Some lead →
  NoDup (id <$> ts) →
  ∀ (i : nat) (task : Task) (due : Z),
    remindable ts !! i = Some task → dueDate task = Some due →
    let fire := due - lead * msPerMinute in
    armed (id task) (resync settings clock ts t)
    = (if bool_decide (clock i < fire)
       then Some {| fireAt := clock i + hostDelay (fire - clock i); subject := task |}
       else None) ∧
    (clock i < fire → fire - clock i ≤ maxDelay →
     armed (id task) (resync settings clock ts t)
     = Some {| fireAt := fire; subject := task |}).
Proof.
  intros Hen Hlead Hnodup i task due Hi Hdue fire.
  assert (Harmed : armed (id task) (resync settings clock ts t)
    = if bool_decide (clock i < fire)
      then Some {| fireAt := clock i + hostDelay (fire - clock i); subject := task |}
      else None).
  { unfold resync, scheduleAll.
    rewrite (armed_scheduleCalls_at settings _ (cleanup t) i (clock i) task).
    - unfold armedBy. by rewrite Hdue, Hen, Hlead.
    - apply tableOk_cleanup.
    - by rewrite lookup_scheduled_calls, Hi.
    - intros j call Hlt Hj Hsame.
      rewrite lookup_scheduled_calls in Hj.
      destruct (remindable ts !! j) as [task'|] eqn:Hj'; [|done].
      simpl in Hj. injection Hj as <-. simpl in Hsame.
      apply NoDup_remindable_ids in Hnodup.
      assert (i = j); [|lia].
      apply (NoDup_lookup _ i j (id task) Hnodup).
      + by rewrite list_lookup_fmap, Hi.
      + rewrite list_lookup_fmap, Hj'. simpl. by rewrite Hsame. }
  split; [exact Harmed|].
  intros Hlt Hrange. rewrite Harmed, bool_decide_eq_true_2 by done.
  rewrite hostDelay_in_range by lia. do 2 f_equal. lia.
Qed.

Lemma resync_arms_each_remindable_task_witness :
  let now := noonOf 20000 in
  let soon := sampleTask "a" false (Some (now + 20 * msPerMinute)) 0 in
  let late := sampleTask "b" false (Some (now + 10 * msPerMinute)) 0 in
  let ts := [soon; sampleTask "c" true (Some (now + 60 * msPerMinute)) 0; late] in
  let after := resync initialSettings (λ _, now) ts noTimers in
  NoDup (id <$> ts) ∧
  now < now + 20 * msPerMinute - 15 * msPerMinute ∧
  now + 20 * msPerMinute - 15 * msPerMinute - now ≤ maxDelay ∧
  armed "a" after = Some {| fireAt := now + 5 * msPerMinute; subject := soon |} ∧
  armed "b" after = None.
Proof.
  intros now soon late ts after.
  assert (Hnodup : NoDup (id <$> ts)).
  { apply (bool_decide_unpack _). by vm_compute. }
  assert (Hlt : now < now + 20 * msPerMinute - 15 * msPerMinute) by (by vm_compute).
  assert (Hrange : now + 20 * msPerMinute - 15 * msPerMinute - now ≤ maxDelay)
    by (by vm_compute).
  split; [exact Hnodup|]. split; [exact Hlt|]. split; [exact Hrange|]. split.
  - exact (proj2 (resync_arms_each_remindable_task initialSettings (λ _, now) ts noTimers 15
                    eq_refl eq_refl Hnodup 0%nat soon (now + 20 * msPerMinute)
                    eq_refl eq_refl) Hlt Hrange).
  - exact (proj1 (resync_arms_each_remindable_task initialSettings (λ _, now) ts noTimers 15
                    eq_refl eq_refl Hnodup 1%nat late (now + 10 * msPerMinute)
                    eq_refl eq_refl)).
Defined.

Lemma elem_of_scheduled_calls (clock : nat → Z) (ts : list Task) (call : Z * Task) :
  call ∈ imap (λ i task, (clock i, task)) ts → call.2 ∈ ts.
Proof.
  intros [i Hi]%list_elem_of_lookup. rewrite lookup_scheduled_calls in Hi.
  destruct (ts !! i) as [task|] eqn:Hts; [|done].
  injection Hi as <-. simpl. apply list_elem_of_lookup. by exists i.
Qed.

(** X3. Whatever the settings and the timers before, a resync leaves no
    timer armed under an id whose tasks are all completed or without a due
    date, nor under an id that no task carries. *)
Theorem resync_skips_finished_and_undated (settings : AppSettings) (clock : nat → Z)
    (ts : list Task) (t : Timers) (tid : string) :
  (∀ task, task ∈ ts → id task = tid → completed task = true ∨ dueDate task = None) →
  armed tid (resync settings clock ts t) = None.
Proof.
  intros Hnone. unfold resync, scheduleAll.
  rewrite armed_scheduleCalls_other; [apply armed_cleanup|apply tableOk_cleanup|].
  intros call Hcall%elem_of_scheduled_calls Hid.
  apply list_elem_of_filter in Hcall as [[Hopen [due Hdue]] Hin].
  destruct (Hnone _ Hin Hid) as [Hdone|Hundated]; congruence.
Qed.

Lemma resync_skips_finished_and_undated_witness :
  let now := noonOf 20000 in
  let ts := [sampleTask "a" true (Some (now + 60 * msPerMinute)) 0;
             sampleTask "b" false None 0] in
  armed "a" (resync initialSettings (λ _, now) ts noTimers) = None ∧
  armed "b" (resync initialSettings (λ _, now) ts noTimers) = None.
Proof.
  intros now ts.
  assert (Hshape : ∀ tid task, task ∈ ts → id task = tid →
                     completed task = true ∨ dueDate task = None).
  { intros tid task Hin _. unfold ts in Hin.
    apply elem_of_cons in Hin as [->|Hin]; [by left|].
    apply list_elem_of_singleton in Hin as ->. by right. }
  split.
  - exact (resync_skips_finished_and_undated initialSettings (λ _, now) ts noTimers "a"
             (Hshape "a")).
  - exact (resync_skips_finished_and_undated initialSettings (λ _, now) ts noTimers "b"
             (Hshape "b")).
Defined.

Lemma scheduleCalls_disabled settings calls t :
  default false (enabled (notifications settings)) = false →
  scheduleCalls settings calls t = t.
Proof.
  intros Hoff. induction calls as [|call calls IH]; [done|].
  simpl. unfold scheduleNotification.
  destruct (dueDate call.2); rewrite ?Hoff; simpl; apply IH.
Qed.

(** X4. When notifications are not enabled (the flag is false or absent), a
    resync is the cleanup alone: every timer of the table is cleared, nothing
    is armed, and no timeout is requested from the host. *)
Theorem resync_disabled_is_cleanup (settings : AppSettings) (clock : nat → Z)
    (ts : list Task) (t : Timers) :
  default false (enabled (notifications settings)) = false →
  resync settings clock ts t = cleanup t ∧
  ∀ tid, armed tid (resync settings clock ts t) = None.
Proof.
  intros Hoff. unfold resync, scheduleAll.
  rewrite scheduleCalls_disabled by done. split; [done|]. apply armed_cleanup.
Qed.

Lemma resync_disabled_is_cleanup_witness :
  let now := noonOf 20000 in
  let off :=
    {| notifications :=
         {| enabled := Some false; soundEnabled := Some true; reminderTime := Some 15 |};
       theme := system; language := "en" |} in
  let ts := [sampleTask "a" false (Some (now + 20 * msPerMinute)) 0] in
  let before := resync initialSettings (λ _, now) ts noTimers in
  is_Some (armed "a" before) ∧
  armed "a" (resync off (λ _, now) ts before) = None.
Proof.
  intros now off ts before. split; [by eexists; vm_compute|].
  exact (proj2 (resync_disabled_is_cleanup off (λ _, now) ts before eq_refl) "a").
Defined.

Lemma armed_scheduleCalls_same_view settings calls t t' :
  tableOk t → tableOk t' → (∀ tid, armed tid t = armed tid t') →
  ∀ tid, armed tid (scheduleCalls settings calls t)
         = armed tid (scheduleCalls settings calls t').
Proof.
  revert t t'. induction calls as [|[now task] calls IH]; intros t t' Hok Hok' Hview; [done|].
  simpl. apply IH; try by apply tableOk_scheduleNotification.
  intros tid. destruct (decide (tid = id task)) as [->|Hne].
  - by rewrite !armed_scheduleNotification_same, Hview.
  - by rewrite !armed_scheduleNotification_other.
Qed.

(** X5. What a resync leaves armed depends on the settings, the task list
    and the clock readings only, not on the timers that were there: two
    resyncs from different timer states arm the same timers under the same
    ids, and repeating a resync on unchanged input changes nothing of what is
    armed. *)
Theorem resync_forgets_previous_timers (settings : AppSettings) (clock : nat → Z)
    (ts : list Task) (t t' : Timers) (tid : string) :
  armed tid (resync settings clock ts t) = armed tid (resync settings clock ts t') ∧
  armed tid (resync settings clock ts (resync settings clock ts t))
  = armed tid (resync settings clock ts t).
Proof.
  assert (Hindep : ∀ t1 t2,
    armed tid (resync settings clock ts t1) = armed tid (resync settings clock ts t2)).
  { intros t1 t2. unfold resync, scheduleAll.
    apply armed_scheduleCalls_same_view; try apply tableOk_cleanup.
    intros tid'. by rewrite !armed_cleanup. }
  split; apply Hindep.
Qed.

(** ** The streak engine: what a recompute keeps *)

Lemma countBackwards_bounds tz today days n :
  n ≤ countBackwards tz today days n ≤ n + Z.of_nat (length days).
Proof.
  revert n. induction days as [|day earlier IH]; intros n; simpl; [lia|].
  destruct (isSameDay _ _ _); [|lia]. specialize (IH (n + 1)). lia.
Qed.

Lemma streakEndingAt_bounds tz today sortedDays :
  0 ≤ streakEndingAt tz today sortedDays ≤ Z.of_nat (length sortedDays).
Proof.
  unfold streakEndingAt. destruct (last sortedDays); [|lia].
  case_bool_decide; [|lia].
  pose proof (countBackwards_bounds tz today (reverse sortedDays) 0) as Hb.
  rewrite length_reverse in Hb. lia.
Qed.

Lemma length_newDaysWithAllCompleted allDone todayKey recorded :
  (length (newDaysWithAllCompleted allDone todayKey recorded) ≤ length recorded + 1)%nat.
Proof.
  unfold newDaysWithAllCompleted.
  destruct allDone; simpl; case_bool_decide; simpl; try lia.
  - rewrite length_app. simpl. lia.
  - pose proof (length_filter (λ day, day ≠ todayKey) recorded). lia.
Qed.

Lemma length_sortDays days : length (sortDays days) = length days.
Proof. unfold sortDays. by rewrite merge_sort_Permutation. Qed.

(** X6. Every streak recompute stores the qualifying days in ascending
    order, with at most one day more than were recorded and without duplicates
    if the recorded days had none; the current streak it computes is between 0
    and the number of stored days. *)
Theorem recompute_keeps_days_sorted_and_bounds_current (tz now : Z) (state : TodoState) :
  let after := calculateStreak tz now state in
  StronglySorted Z.le (daysWithAllTasksCompleted after) ∧
  (length (daysWithAllTasksCompleted after)
   ≤ length (daysWithAllTasksCompleted (streak state)) + 1)%nat ∧
  (NoDup (daysWithAllTasksCompleted (streak state)) →
   NoDup (daysWithAllTasksCompleted after)) ∧
  0 ≤ current after ≤ Z.of_nat (length (daysWithAllTasksCompleted after)).
Proof.
  intros after. subst after. unfold calculateStreak; simpl.
  split; [unfold sortDays; apply StronglySorted_merge_sort; apply _|].
  split; [rewrite length_sortDays; apply length_newDaysWithAllCompleted|].
  split; [|apply streakEndingAt_bounds].
  intros Hnodup. unfold sortDays. rewrite merge_sort_Permutation.
  by apply NoDup_newDaysWithAllCompleted.
Qed.

Lemma recompute_keeps_days_sorted_and_bounds_current_witness :
  let state :=
    stateOf [] {| current := 0; longest := 4; lastCompletionDate := None;
                  daysWithAllTasksCompleted := [19999; 19990; 19998] |} in
  NoDup (daysWithAllTasksCompleted (streak state)) ∧
  NoDup (daysWithAllTasksCompleted (calculateStreak 0 (noonOf 20000) state)).
Proof.
  intros state.
  assert (Hnodup : NoDup (daysWithAllTasksCompleted (streak state))).
  { apply (bool_decide_unpack _). by vm_compute. }
  split; [exact Hnodup|].
  destruct (recompute_keeps_days_sorted_and_bounds_current 0 (noonOf 20000) state)
    as (_ & _ & Hkeep & _).
  exact (Hkeep Hnodup).
Defined.

Lemma startOfDay_same_day tz now now' :
  dateKey tz now' = dateKey tz now → startOfDay tz now' = startOfDay tz now.
Proof. unfold startOfDay. by intros ->. Qed.

Lemma sortDays_sorted days : StronglySorted Z.le days → sortDays days = days.
Proof.
  intros Hsorted. apply (StronglySorted_unique Z.le); [|done|].
  - unfold sortDays. apply StronglySorted_merge_sort; apply _.
  - unfold sortDays. apply merge_sort_Permutation.
Qed.

Lemma newDaysWithAllCompleted_settled allDone todayKey recorded :
  newDaysWithAllCompleted allDone todayKey
    (sortDays (newDaysWithAllCompleted allDone todayKey recorded))
  = sortDays (newDaysWithAllCompleted allDone todayKey recorded).
Proof.
  set (days := sortDays (newDaysWithAllCompleted allDone todayKey recorded)).
  assert (Hin : todayKey ∈ days ↔ allDone = true).
  { unfold days. rewrite elem_of_sortDays, elem_of_newDaysWithAllCompleted.
    split; [by intros [[_ ?]|[? _]]|by left]. }
  unfold newDaysWithAllCompleted at 1.
  destruct allDone; simpl.
  - rewrite bool_decide_eq_true_2 by (by apply Hin). done.
  - rewrite bool_decide_eq_false_2; [done|]. intros Hc. by apply Hin in Hc.
Qed.

(** X7. A recompute is stable: recomputing once more on the same calendar
    day with the same task list, from the streak the first recompute stored,
    gives that same streak record. *)
Theorem recompute_again_same_day (tz now now' clock : Z) (state : TodoState) :
  dateKey tz now' = dateKey tz now →
  calculateStreak tz now'
    (todoReducer clock state (UPDATE_STREAK (calculateStreak tz now state)))
  = calculateStreak tz now state.
Proof.
  intros Hday. unfold calculateStreak at 1. simpl tasks. simpl streak.
  rewrite (startOfDay_same_day tz now now' Hday).
  unfold calculateStreak. simpl.
  rewrite newDaysWithAllCompleted_settled.
  rewrite sortDays_sorted
    by (unfold sortDays; apply StronglySorted_merge_sort; apply _).
  f_equal.
  - lia.
  - by destruct (allTodayTasksCompleted _ _ _).
Qed.

Lemma recompute_again_same_day_witness :
  let now := noonOf 20000 in
  let state :=
    stateOf [sampleTask "a" true (Some now) 0]
            {| current := 0; longest := 1; lastCompletionDate := None;
               daysWithAllTasksCompleted := [19998; 19999] |} in
  dateKey 0 (now + 3600000) = dateKey 0 now ∧
  calculateStreak 0 (now + 3600000)
    (todoReducer 0 state (UPDATE_STREAK (calculateStreak 0 now state)))
  = calculateStreak 0 now state.
Proof.
  intros now state. split; [reflexivity|].
  exact (recompute_again_same_day 0 now (now + 3600000) 0 state eq_refl).
Defined.

(** X8. At or east of UTC, when the recorded days are distinct and none lies
    after today, the current streak is the number of consecutive calendar days,
    counted backward from today, that are in the new qualifying set, and the
    stored days are again distinct and not after today. *)
Theorem current_is_run_ending_today (tz now : Z) (state : TodoState) :
  0 ≤ tz < msPerDay →
  NoDup (daysWithAllTasksCompleted (streak state)) →
  (∀ d, d ∈ daysWithAllTasksCompleted (streak state) → d ≤ dateKey tz now) →
  let after := daysWithAllTasksCompleted (calculateStreak tz now state) in
  NoDup after ∧ (∀ d, d ∈ after → d ≤ dateKey tz now) ∧
  current (calculateStreak tz now state)
  = consecutiveDaysBack (length after) (dateKey tz now) after.
Proof.
  intros Htz Hnodup Hpast after. subst after.
  unfold calculateStreak; simpl. rewrite dateKey_startOfDay.
  set (new := newDaysWithAllCompleted _ _ _).
  assert (Hnodup' : NoDup (sortDays new)).
  { unfold sortDays. rewrite merge_sort_Permutation.
    by apply NoDup_newDaysWithAllCompleted. }
  assert (Hpast' : ∀ d, d ∈ sortDays new → d ≤ dateKey tz now).
  { intros d. rewrite elem_of_sortDays. unfold new.
    rewrite elem_of_newDaysWithAllCompleted.
    intros [[-> _]|[_ Hd]]; [done|by apply Hpast]. }
  split; [done|]. split; [done|].
  apply streakEndingAt_counts_back; try done.
  unfold sortDays. apply StronglySorted_merge_sort; apply _.
Qed.

Lemma current_is_run_ending_today_witness :
  let now := noonOf 20000 in
  let state :=
    stateOf [sampleTask "a" true (Some now) 0]
            {| current := 0; longest := 0; lastCompletionDate := None;
               daysWithAllTasksCompleted := [19996; 19998; 19999] |} in
  0 ≤ 0 < msPerDay ∧
  NoDup (daysWithAllTasksCompleted (streak state)) ∧
  current (calculateStreak 0 now state) = 3.
Proof.
  intros now state.
  assert (Htz : 0 ≤ 0 < msPerDay) by (by vm_compute).
  assert (Hnodup : NoDup (daysWithAllTasksCompleted (streak state))).
  { apply (bool_decide_unpack _). by vm_compute. }
  assert (Hpast : ∀ d, d ∈ daysWithAllTasksCompleted (streak state) → d ≤ dateKey 0 now).
  { intros d Hd. apply list_elem_of_In in Hd. simpl in Hd.
    assert (Hkey : dateKey 0 now = 20000) by reflexivity. rewrite Hkey.
    destruct Hd as [<-|[<-|[<-|[]]]]; lia. }
  split; [exact Htz|]. split; [exact Hnodup|].
  destruct (current_is_run_ending_today 0 now state Htz Hnodup Hpast) as (_ & _ & Hc).
  exact Hc.
Defined.

(** ** The statistics engine: the buckets add up *)

Lemma sumValues_insert_fresh (m : gmap Z Z) (key n : Z) :
  m !! key = None → sumValues (<[key := n]> m) = n + sumValues m.
Proof.
  intros Hfresh. unfold sumValues.
  apply (map_fold_insert_L (λ _ n acc, n + acc)); [|done].
  intros; lia.
Qed.

Lemma sumValues_insert (m : gmap Z Z) (key n : Z) :
  sumValues (<[key := n]> m) = n + sumValues m - default 0 (m !! key).
Proof.
  destruct (m !! key) as [old|] eqn:Hkey; simpl.
  - rewrite <- (insert_delete_eq m key n).
    rewrite sumValues_insert_fresh by apply lookup_delete_eq.
    rewrite <- (insert_delete_id m key old Hkey) at 2.
    rewrite sumValues_insert_fresh by apply lookup_delete_eq. lia.
  - rewrite sumValues_insert_fresh by done. lia.
Qed.

Lemma sumValues_countTask tz (daily : gmap Z Z) (task : Task) :
  sumValues (countTask tz daily task)
  = sumValues daily + (if completed task then 1 else 0).
Proof.
  unfold countTask. set (key := dateKey tz (createdAt task)).
  destruct (daily !! key) as [n|] eqn:Hkey.
  - case_decide as Hn.
    + subst n. destruct (completed task).
      * rewrite !sumValues_insert, lookup_insert_eq, Hkey. simpl. lia.
      * rewrite sumValues_insert, Hkey. simpl. lia.
    + destruct (completed task); [|lia].
      rewrite sumValues_insert, Hkey. simpl. lia.
  - destruct (completed task).
    + rewrite !sumValues_insert, lookup_insert_eq, Hkey. simpl. lia.
    + rewrite sumValues_insert, Hkey. simpl. lia.
Qed.

Lemma sumValues_foldl_countTask tz (ts : list Task) (daily : gmap Z Z) :
  sumValues (foldl (countTask tz) daily ts)
  = sumValues daily
    + Z.of_nat (length (filter (λ task, completed task = true) ts)).
Proof.
  revert daily. induction ts as [|task ts IH]; intros daily.
  - simpl foldl. rewrite filter_nil. simpl length. lia.
  - simpl foldl. rewrite IH, sumValues_countTask.
    destruct (completed task) eqn:Hc.
    + rewrite filter_cons_True by done. simpl length. lia.
    + rewrite filter_cons_False by congruence. lia.
Qed.

(** X9. In the statistics of every recompute the per-day buckets add up to
    completedTasks: each completed task is counted in exactly one bucket, that
    of its creation day.  Every bucket is between 0 and completedTasks, and
    completedTasks is at most totalTasks. *)
Theorem daily_buckets_add_up (tz : Z) (state : TodoState) :
  let s := calculateStats tz state in
  sumValues (dailyCompletion s) = completedTasks s ∧
  (∀ day n, dailyCompletion s !! day = Some n → 0 ≤ n ≤ completedTasks s) ∧
  0 ≤ completedTasks s ≤ totalTasks s.
Proof.
  intros s. subst s. unfold calculateStats; simpl. split; [|split].
  - rewrite sumValues_foldl_countTask. unfold sumValues. rewrite map_fold_empty. lia.
  - intros day n. rewrite lookup_foldl_countTask, lookup_empty.
    case_bool_decide; [|done]. intros [= <-]. unfold completedCreatedOn.
    split; [lia|]. apply inj_le.
    rewrite <- (list_filter_filter
                  (λ task, dateKey tz (createdAt task) = day)
                  (λ task, completed task = true)).
    apply length_filter.
  - split; [lia|]. apply inj_le, length_filter.
Qed.

Lemma daily_buckets_add_up_witness :
  let state :=
    stateOf [sampleTask "a" false None (noonOf 3); sampleTask "b" true None (noonOf 3);
             sampleTask "c" true None (noonOf 5)] initialStreak in
  dailyCompletion (calculateStats 0 state) !! 3 = Some 1 ∧
  0 ≤ 1 ≤ completedTasks (calculateStats 0 state).
Proof.
  intros state.
  assert (Hday : dailyCompletion (calculateStats 0 state) !! 3 = Some 1) by (by vm_compute).
  split; [exact Hday|].
  exact (proj1 (proj2 (daily_buckets_add_up 0 state)) 3 1 Hday).
Defined.

(** ** The store: identifiers stay unique *)

Lemma ids_toggleTask now tid state :
  id <$> tasks (toggleTask now tid state) = id <$> tasks state.
Proof.
  unfold toggleTask, todoReducer; simpl.
  rewrite <- list_fmap_compose. apply list_fmap_ext.
  intros i task _; simpl. by case_decide.
Qed.

Lemma ids_updateTask now tid updates state :
  u_id updates = None →
  id <$> tasks (updateTask now tid updates state) = id <$> tasks state.
Proof.
  intros Hnone. unfold updateTask, todoReducer; simpl.
  rewrite <- list_fmap_compose. apply list_fmap_ext.
  intros i task _; simpl. case_decide; [|done].
  by rewrite id_applyUpdates, Hnone.
Qed.

(** X10. Identifiers stay unique.  If no two tasks of the state share an id,
    the same holds after adding a task under an id that no task carries, after
    deleting, after toggling, and after an update whose partial fields have no
    id key.  Adding under an id that some task already carries gives a list
    with a duplicate id. *)
Theorem commands_keep_ids_unique (now created updated : Z) (newId tid : string)
    (taskData : TaskData) (updates : TaskUpdates) (state : TodoState) :
  NoDup (id <$> tasks state) →
  (newId ∉ (id <$> tasks state) →
   NoDup (id <$> tasks (addTask newId created updated taskData state))) ∧
  (newId ∈ (id <$> tasks state) →
   ¬ NoDup (id <$> tasks (addTask newId created updated taskData state))) ∧
  NoDup (id <$> tasks (deleteTask now tid state)) ∧
  NoDup (id <$> tasks (toggleTask now tid state)) ∧
  (u_id updates = None → NoDup (id <$> tasks (updateTask now tid updates state))).
Proof.
  intros Hnodup. repeat split.
  - intros Hfresh. unfold addTask, todoReducer; simpl. rewrite fmap_app; simpl.
    apply NoDup_app. split; [done|]. split; [|apply NoDup_singleton].
    intros x Hx ->%list_elem_of_singleton. done.
  - intros Hused. unfold addTask, todoReducer; simpl. rewrite fmap_app; simpl.
    intros Hdup. apply NoDup_app in Hdup as (_ & Hdisjoint & _).
    apply (Hdisjoint newId Hused). left.
  - unfold deleteTask, todoReducer; simpl.
    apply (sublist_NoDup _ (id <$> tasks state)); [done|].
    apply fmap_sublist, sublist_filter.
  - by rewrite ids_toggleTask.
  - intros Hnone. by rewrite ids_updateTask.
Qed.

Lemma commands_keep_ids_unique_witness :
  let state :=
    stateOf [sampleTask "a" false None 1000; sampleTask "b" true None 2000] initialStreak in
  NoDup (id <$> tasks state) ∧
  ("c" ∉ (id <$> tasks state)) ∧
  NoDup (id <$> tasks (addTask "c" 3000 3000 emptyTitleData state)).
Proof.
  intros state.
  assert (Hnodup : NoDup (id <$> tasks state)).
  { apply (bool_decide_unpack _). by vm_compute. }
  assert (Hfresh : "c" ∉ (id <$> tasks state)).
  { apply (bool_decide_unpack _). by vm_compute. }
  split; [exact Hnodup|]. split; [exact Hfresh|].
  exact (proj1 (commands_keep_ids_unique 0 3000 3000 "c" "a" emptyTitleData
                  {| u_id := None; u_title := None; u_description := None;
                     u_completed := None; u_priority := None; u_dueDate := None;
                     u_createdAt := None; u_updatedAt := None |} state Hnodup) Hfresh).
Defined.

(** ** The form: dates *)

Lemma dateKey_localDateTime tz day minutes :
  0 ≤ minutes < 24 * 60 → dateKey tz (localDateTime tz day minutes) = day.
Proof.
  intros Hm. unfold dateKey, localDateTime, msPerDay, msPerMinute.
  Z.to_euclidean_division_equations. lia.
Qed.

Lemma localDateTime_of_fields tz d :
  localDateTime tz (dateKey tz d) (minuteOfDay tz d) = d - (d + tz) `mod` msPerMinute.
Proof.
  unfold minuteOfDay, localDateTime, dateKey, msPerDay, msPerMinute.
  Z.to_euclidean_division_equations. lia.
Qed.

(** ** The form: what a submission does *)

Lemma handleSubmit_dueDate_error tz checked newId created updated task formData state :
  e_dueDate (validateForm tz checked formData) ≠ None →
  handleSubmit tz checked newId created updated task formData state = state.
Proof.
  intros Herr. unfold handleSubmit, noErrors.
  destruct (e_title _); [done|]. by destruct (e_dueDate _).
Qed.

(** X12. A submission whose date and time are both given, well formed (a
    date with a four-digit year, a time from 00:00 to 23:59), and before the
    clock reading of the validation is rejected, for a new task and for an
    edited one: the form reports that the due date cannot be in the past and
    the state is unchanged. *)
Theorem past_date_time_is_rejected (tz checked : Z) (newId : string) (created updated : Z)
    (task : option Task) (formData : TaskFormData) (state : TodoState) (day minutes : Z) :
  f_dueDate formData = Some day → f_dueTime formData = Some minutes →
  wellFormedDate day → wellFormedTime minutes →
  localDateTime tz day minutes < checked →
  e_dueDate (validateForm tz checked formData) = Some "Due date cannot be in the past" ∧
  handleSubmit tz checked newId created updated task formData state = state.
Proof.
  intros Hday Hminutes _ _ Hpast.
  assert (Herr : e_dueDate (validateForm tz checked formData)
                 = Some "Due date cannot be in the past").
  { unfold validateForm; simpl. rewrite Hday, Hminutes.
    by rewrite bool_decide_eq_true_2. }
  split; [exact Herr|].
  apply handleSubmit_dueDate_error. by rewrite Herr.
Qed.

Lemma past_date_time_is_rejected_witness :
  let form :=
    {| f_title := "pay rent"; f_description := ""; f_priority := high;
       f_dueDate := Some 19999; f_dueTime := Some (9 * 60) |} in
  wellFormedDate 19999 ∧ wellFormedTime (9 * 60) ∧
  localDateTime 0 19999 (9 * 60) < noonOf 20000 ∧
  handleSubmit 0 (noonOf 20000) "id-1" 1000 1000 None form initialState = initialState.
Proof.
  intros form.
  assert (Hdate : wellFormedDate 19999) by (unfold wellFormedDate; lia).
  assert (Htime : wellFormedTime (9 * 60)) by (unfold wellFormedTime; lia).
  assert (Hpast : localDateTime 0 19999 (9 * 60) < noonOf 20000) by (by vm_compute).
  split; [exact Hdate|]. split; [exact Htime|]. split; [exact Hpast|].
  exact (proj2 (past_date_time_is_rejected 0 (noonOf 20000) "id-1" 1000 1000 None form
                  initialState 19999 (9 * 60) eq_refl eq_refl Hdate Htime Hpast)).
Defined.



(** A title of white space that is not ASCII, here two no-break spaces
    (U+00A0), is blank too and stops at the form. *)
Example no_break_space_title_is_blank :
  let nbsp := noBreakSpace in
  let form :=
    {| f_title := nbsp +:+ " " +:+ nbsp; f_description := ""; f_priority := high;
       f_dueDate := None; f_dueTime := None |} in
  trim (f_title form) = "" ∧
  trim (nbsp +:+ "pay rent" +:+ nbsp) = "pay rent" ∧
  handleSubmit 0 (noonOf 20000) "id-1" 1000 1000 None form initialState = initialState.
Proof. by vm_compute. Qed.

(** X14. A task whose due date-time has passed cannot be saved from the edit
    form while the form's date and time are the ones it was opened with: the
    form shows the task's due date-time without its seconds, that instant is
    before the clock, the validation fails, and the state is unchanged,
    whatever the other fields were changed to. *)
Theorem overdue_task_edit_is_rejected (tz checked : Z) (newId : string)
    (created updated : Z) (task : Task) (formData : TaskFormData) (state : TodoState)
    (due : Z) :
  dueDate task = Some due → due < checked →
  f_dueDate formData = f_dueDate (initialFormData tz (Some task)) →
  f_dueTime formData = f_dueTime (initialFormData tz (Some task)) →
  handleSubmit tz checked newId created updated (Some task) formData state = state.
Proof.
  intros Hdue Hpast Hday Htime.
  unfold initialFormData in Hday, Htime; simpl in Hday, Htime.
  rewrite Hdue in Hday, Htime; simpl in Hday, Htime.
  apply handleSubmit_dueDate_error.
  unfold validateForm; simpl. rewrite Hday, Htime.
  rewrite bool_decide_eq_true_2; [done|].
  rewrite localDateTime_of_fields.
  unfold msPerMinute. Z.to_euclidean_division_equations. lia.
Qed.

Lemma overdue_task_edit_is_rejected_witness :
  let task := sampleTask "a" false (Some (noonOf 19999)) 0 in
  let state := stateOf [task] initialStreak in
  let form :=
    {| f_title := "water the plants today"; f_description := "";
       f_priority := high;
       f_dueDate := f_dueDate (initialFormData 0 (Some task));
       f_dueTime := f_dueTime (initialFormData 0 (Some task)) |} in
  noonOf 19999 < noonOf 20000 ∧
  handleSubmit 0 (noonOf 20000) "id-1" 1000 1000 (Some task) form state = state.
Proof.
  intros task state form.
  assert (Hpast : noonOf 19999 < noonOf 20000) by (by vm_compute).
  split; [exact Hpast|].
  exact (overdue_task_edit_is_rejected 0 (noonOf 20000) "id-1" 1000 1000 task form state
           (noonOf 19999) eq_refl Hpast eq_refl eq_refl).
Defined.

(** ** The task item: overdue means due on an earlier day *)

Lemma dateKey_mono tz a b : a ≤ b → dateKey tz a ≤ dateKey tz b.
Proof.
  intros Hle. unfold dateKey. apply Z.div_le_mono; [apply msPerDay_pos|lia].
Qed.

Lemma dateKey_lt tz a b : dateKey tz a < dateKey tz b → a < b.
Proof.
  intros Hlt. destruct (decide (a < b)) as [|Hge]; [done|].
  pose proof (dateKey_mono tz b a ltac:(lia)). lia.
Qed.

(** X15. The overdue mark of a task item means: not completed and due on a
    calendar day before today.  If the item is marked overdue, the task is not
    completed and its due day is before the day of the later clock reading; a
    task that is not completed and whose due day is before the day of the
    earlier reading is marked.  A task due today is never marked overdue, even
    when its time has passed, and a completed task never is. *)
Theorem overdue_is_due_before_today (tz nowPast nowToday : Z) (task : Task) :
  nowPast ≤ nowToday →
  (isOverdue tz nowPast nowToday task = true →
   completed task = false ∧
   ∃ due, dueDate task = Some due ∧ dateKey tz due < dateKey tz nowToday) ∧
  (∀ due, completed task = false → dueDate task = Some due →
     dateKey tz due < dateKey tz nowPast → isOverdue tz nowPast nowToday task = true) ∧
  (isDueToday tz nowToday task = true → isOverdue tz nowPast nowToday task = false) ∧
  (completed task = true → isOverdue tz nowPast nowToday task = false).
Proof.
  intros Hclock. unfold isOverdue, isDueToday, isPast, isToday, isSameDay.
  destruct (dueDate task) as [due|]; simpl.
  - split; [|split; [|split]].
    + intros Hmark.
      apply andb_true_iff in Hmark as [Hmark Hnot].
      apply andb_true_iff in Hmark as [Hp Hopen].
      apply bool_decide_eq_true in Hp.
      apply negb_true_iff in Hopen.
      apply negb_true_iff, bool_decide_eq_false in Hnot.
      split; [done|]. exists due. split; [done|].
      pose proof (dateKey_mono tz due nowToday ltac:(lia)). lia.
    + intros due' Hopen [= <-] Hbefore. rewrite Hopen. simpl.
      rewrite bool_decide_eq_true_2 by (by apply (dateKey_lt tz)).
      rewrite bool_decide_eq_false_2; [done|].
      pose proof (dateKey_mono tz nowPast nowToday Hclock). lia.
    + intros Htoday. rewrite Htoday. simpl. apply andb_false_r.
    + intros ->. simpl. by rewrite andb_false_r.
  - split; [done|]. split; [by intros due ? ?|]. split; done.
Qed.

Lemma overdue_is_due_before_today_witness :
  let now := noonOf 20000 in
  let task := sampleTask "a" false (Some (now - 3600000)) 0 in
  let older := sampleTask "b" false (Some (now - 24 * 3600000)) 0 in
  now ≤ now ∧
  isDueToday 0 now task = true ∧
  isOverdue 0 now now task = false ∧
  isOverdue 0 now now older = true.
Proof.
  intros now task older.
  assert (Hclock : now ≤ now) by lia.
  split; [exact Hclock|]. split; [reflexivity|].
  destruct (overdue_is_due_before_today 0 now now task Hclock) as (_ & _ & Htoday & _).
  destruct (overdue_is_due_before_today 0 now now older Hclock) as (_ & Hmark & _ & _).
  split; [exact (Htoday eq_refl)|].
  apply (Hmark (now - 24 * 3600000)); [reflexivity|reflexivity|by vm_compute].
Defined.

(** ** The task page: sorting *)

Section SortBy.

Context {A : Type} (compare : A → A → Z).

Hypothesis notAfter_trans :
  ∀ x y z, notAfter compare x y → notAfter compare y z → notAfter compare x z.
Hypothesis notAfter_total : ∀ x y, notAfter compare x y ∨ notAfter compare y x.

Lemma insertBy_Permutation (x : A) (l : list A) : insertBy compare x l ≡ₚ x :: l.
Proof.
  induction l as [|y rest IH]; [done|]. simpl.
  case_bool_decide; [done|]. rewrite IH. apply Permutation_swap.
Qed.

Lemma sortBy_Permutation (l : list A) : sortBy compare l ≡ₚ l.
Proof.
  induction l as [|x l IH]; [done|].
  unfold sortBy; simpl. fold (sortBy compare l).
  by rewrite insertBy_Permutation, IH.
Qed.

Lemma insertBy_sorted (x : A) (l : list A) :
  StronglySorted (notAfter compare) l →
  StronglySorted (notAfter compare) (insertBy compare x l).
Proof.
  induction l as [|y rest IH]; intros Hsorted; simpl.
  - repeat constructor.
  - apply StronglySorted_cons in Hsorted as [Hy Hrest].
    case_bool_decide as Hxy.
    + apply StronglySorted_cons. split; [|by apply StronglySorted_cons].
      constructor; [done|].
      eapply Forall_impl; [exact Hy|]. intros z Hz. by apply (notAfter_trans x y z).
    + apply StronglySorted_cons. split; [|by apply IH].
      rewrite insertBy_Permutation. constructor; [|done].
      by destruct (notAfter_total x y).
Qed.

Lemma sortBy_sorted (l : list A) : StronglySorted (notAfter compare) (sortBy compare l).
Proof.
  induction l as [|x l IH]; [constructor|].
  unfold sortBy; simpl. by apply insertBy_sorted.
Qed.

End SortBy.

Lemma StronglySorted_pairs {A : Type} (R : relation A) (l : list A) (i j : nat) (a b : A) :
  StronglySorted R l → (i < j)%nat → l !! i = Some a → l !! j = Some b → R a b.
Proof.
  intros Hsorted. revert i j. induction Hsorted as [|x l Hsorted IH Hx]; intros i j Hlt Hi Hj.
  - by rewrite lookup_nil in Hi.
  - destruct j as [|j]; [lia|]. simpl in Hj.
    destruct i as [|i]; simpl in Hi.
    + injection Hi as <-. rewrite Forall_lookup in Hx. by apply (Hx j).
    + apply (IH i j); [lia|done|done].
Qed.

Lemma compareDueDate_dueNoLater a b : compareDueDate a b ≤ 0 ↔ dueNoLater a b.
Proof.
  unfold compareDueDate, dueNoLater.
  destruct (dueDate a), (dueDate b); lia.
Qed.

Lemma priorityOrder_inj p q : priorityOrder p = priorityOrder q → p = q.
Proof. by destruct p, q. Qed.

Lemma compareTasks_inOrder localeCompare sortType a b :
  sortType ≠ SortAlphabetical →
  compareTasks localeCompare sortType a b ≤ 0 ↔ inOrder sortType a b.
Proof.
  intros Hclock. destruct sortType; simpl; try done.
  - case_decide as Hdiff.
    + split; [intros ?; left; lia|].
      intros [?|[Heq _]]; [lia|]. rewrite Heq in Hdiff. lia.
    + rewrite compareDueDate_dueNoLater. split.
      * intros ?. right. split; [|done]. apply priorityOrder_inj. lia.
      * intros [?|[_ ?]]; [lia|done].
  - apply compareDueDate_dueNoLater.
  - lia.
Qed.

Lemma dueNoLater_trans a b c : dueNoLater a b → dueNoLater b c → dueNoLater a c.
Proof. unfold dueNoLater. destruct (dueDate a), (dueDate b), (dueDate c); lia. Qed.

Lemma dueNoLater_total a b : dueNoLater a b ∨ dueNoLater b a.
Proof. unfold dueNoLater. destruct (dueDate a), (dueDate b); lia. Qed.

Lemma inOrder_trans sortType a b c :
  inOrder sortType a b → inOrder sortType b c → inOrder sortType a c.
Proof.
  destruct sortType; simpl; try done.
  - intros [?|[Hab ?]] [?|[Hbc ?]].
    + left. lia.
    + left. rewrite <- Hbc. done.
    + left. rewrite Hab. done.
    + right. split; [congruence|]. by apply (dueNoLater_trans a b c).
  - apply dueNoLater_trans.
  - lia.
Qed.

Lemma inOrder_total sortType a b : inOrder sortType a b ∨ inOrder sortType b a.
Proof.
  destruct sortType; simpl; try (by left).
  - destruct (decide (priorityOrder (priority a) = priorityOrder (priority b)))
      as [Heq%priorityOrder_inj|Hne].
    + destruct (dueNoLater_total a b); [left|right]; right; split; done.
    + destruct (decide (priorityOrder (priority b) < priorityOrder (priority a)));
        [left|right]; left; lia.
  - apply dueNoLater_total.
  - lia.
Qed.

(** X16. Sorting the task page by due date, by priority or by creation date
    rearranges the filtered tasks without adding or dropping any, and puts them
    in the order of the sort type: by due date, earlier due dates first and the
    tasks without a due date last; by priority, high before medium before low
    and, within a priority, by due date; by creation date, newest first. *)
Theorem sortTasks_orders_the_page (localeCompare : string → string → Z)
    (sortType : SortType) (filtered : list Task) :
  sortType ≠ SortAlphabetical →
  sortTasks localeCompare sortType filtered ≡ₚ filtered ∧
  ∀ (i j : nat) (a b : Task), (i < j)%nat →
    sortTasks localeCompare sortType filtered !! i = Some a →
    sortTasks localeCompare sortType filtered !! j = Some b →
    inOrder sortType a b.
Proof.
  intros Hclock. split; [apply sortBy_Permutation|].
  intros i j a b Hlt Hi Hj.
  apply (compareTasks_inOrder localeCompare); [done|].
  apply (StronglySorted_pairs (notAfter (compareTasks localeCompare sortType))
           (sortTasks localeCompare sortType filtered) i j); try done.
  apply sortBy_sorted.
  - intros x y z. unfold notAfter.
    rewrite !(compareTasks_inOrder localeCompare) by done. apply inOrder_trans.
  - intros x y. unfold notAfter.
    rewrite !(compareTasks_inOrder localeCompare) by done. apply inOrder_total.
Qed.

Lemma sortTasks_orders_the_page_witness :
  let undated := sampleTask "a" false None 0 in
  let late := sampleTask "b" false (Some 9000) 0 in
  let early := sampleTask "c" true (Some 4000) 0 in
  SortDueDate ≠ SortAlphabetical ∧
  sortTasks (λ _ _, 0) SortDueDate [undated; late; early] = [early; late; undated] ∧
  inOrder SortDueDate early undated.
Proof.
  intros undated late early.
  assert (Hclock : SortDueDate ≠ SortAlphabetical) by discriminate.
  split; [exact Hclock|]. split; [reflexivity|].
  exact (proj2 (sortTasks_orders_the_page (λ _ _, 0) SortDueDate [undated; late; early]
                  Hclock) 0%nat 2%nat early undated ltac:(lia) eq_refl eq_refl).
Defined.

(** ** Loading at mount *)

Lemma foldl_todoReducer_app now state (first second : list TodoAction) :
  foldl (todoReducer now) state (first ++ second)
  = foldl (todoReducer now) (foldl (todoReducer now) state first) second.
Proof. apply foldl_app. Qed.

Lemma calculateStreak_initialState tz now : calculateStreak tz now initialState = initialStreak.
Proof. done. Qed.

Lemma calculateStats_initialState tz : calculateStats tz initialState = initialStats.
Proof. done. Qed.

(** X17. The streak and the statistics that were saved never reach the state.
    After the effects of the first render, the streak is the empty initial
    streak and the statistics are the initial ones, whatever the four saved
    items were: the dispatches of the streak and statistics effects, computed
    from the initial state, come after those of the loader.  Hence after the
    recompute that follows, longest is at most 1. *)
Theorem saved_streak_is_overwritten_at_mount (tz now now' : Z)
    (savedTasks : Saved (list Task)) (savedSettings : Saved SettingsUpdates)
    (savedStats : Saved UserStats) (savedStreak : Saved StreakInfo) :
  let state := mounted tz now savedTasks savedSettings savedStats savedStreak in
  streak state = initialStreak ∧
  stats state = initialStats ∧
  0 ≤ longest (streak (recompute tz now' state)) ≤ 1.
Proof.
  intros state.
  assert (Hstreak : streak state = initialStreak).
  { unfold state, mounted, mountDispatches. by rewrite foldl_todoReducer_app. }
  assert (Hstats : stats state = initialStats).
  { unfold state, mounted, mountDispatches. by rewrite foldl_todoReducer_app. }
  split; [done|]. split; [done|].
  rewrite streak_recompute, longest_calculateStreak, Hstreak. simpl longest.
  pose proof (streakEndingAt_bounds tz (startOfDay tz now')
                (daysWithAllTasksCompleted (calculateStreak tz now' state))) as Hb.
  pose proof (length_newDaysWithAllCompleted
                (allTodayTasksCompleted tz (startOfDay tz now') (tasks state))
                (dateKey tz (startOfDay tz now'))
                (daysWithAllTasksCompleted (streak state))) as Hlen.
  rewrite Hstreak in Hlen. simpl in Hlen.
  unfold calculateStreak in *; simpl in *.
  rewrite length_sortDays, Hstreak in Hb. rewrite Hstreak. simpl in *. lia.
Qed.

(** X18. The loader stops at the first item it cannot parse.  If the saved
    tasks are unreadable nothing is loaded, the saved settings included: tasks
    and settings are the initial ones.  If the tasks are readable and the
    settings are not, the tasks are loaded and the settings stay initial. *)
Theorem load_stops_at_unreadable_item (tz now : Z) (savedTasks : Saved (list Task))
    (savedSettings : Saved SettingsUpdates) (savedStats : Saved UserStats)
    (savedStreak : Saved StreakInfo) :
  (savedTasks = Unreadable →
   tasks (mounted tz now savedTasks savedSettings savedStats savedStreak) = [] ∧
   settings (mounted tz now savedTasks savedSettings savedStats savedStreak)
   = initialSettings) ∧
  (∀ ts, savedTasks = Readable ts → savedSettings = Unreadable →
   tasks (mounted tz now savedTasks savedSettings savedStats savedStreak) = ts ∧
   settings (mounted tz now savedTasks savedSettings savedStats savedStreak)
   = initialSettings).
Proof.
  split.
  - by intros ->.
  - by intros ts -> ->.
Qed.

Lemma load_stops_at_unreadable_item_witness :
  let dark_ := {| s_notifications := None; s_theme := Some dark; s_language := None |} in
  let state := mounted 0 0 Unreadable (Readable dark_) NotSaved NotSaved in
  tasks state = [] ∧ theme (settings state) = system.
Proof.
  intros dark_ state.
  destruct (proj1 (load_stops_at_unreadable_item 0 0 Unreadable (Readable dark_)
                     NotSaved NotSaved) eq_refl) as [Htasks Hsettings].
  split; [exact Htasks|]. unfold state. by rewrite Hsettings.
Defined.

(** X19. Tasks and settings come back as they were saved.  When the saved
    tasks are readable and the saved settings are the stored form of a settings
    record, the state after the effects of the first render has exactly those
    tasks and those settings, whatever was saved for streak and statistics,
    readable or not. *)
Theorem saved_tasks_and_settings_are_restored (tz now : Z) (ts : list Task)
    (s : AppSettings) (savedStats : Saved UserStats) (savedStreak : Saved StreakInfo) :
  let state :=
    mounted tz now (Readable ts) (Readable (savedSettingsOf s)) savedStats savedStreak in
  tasks state = ts ∧ settings state = s.
Proof.
  intros state. unfold state, mounted, mountDispatches.
  rewrite foldl_todoReducer_app.
  destruct s as [n th lang]. by destruct savedStats, savedStreak.
Qed.

(** ** The dashboard: the tasks shown as recent *)

Lemma compareRecent_trans a b c :
  notAfter compareRecent a b → notAfter compareRecent b c → notAfter compareRecent a c.
Proof. unfold notAfter, compareRecent. lia. Qed.

Lemma compareRecent_total a b : notAfter compareRecent a b ∨ notAfter compareRecent b a.
Proof. unfold notAfter, compareRecent. lia. Qed.

(** X20. The dashboard's recent tasks are the (at most five) most urgent
    open tasks: every task shown is a task of the list that is not completed
    and has a due date; they are shown by ascending due date; together with the
    tasks left out they are exactly the open tasks with a due date; and no task
    left out is due earlier than a task shown. *)
Theorem recentTasks_are_the_most_urgent (ts : list Task) :
  let shown := recentTasks ts in
  let omitted := drop 5 (sortBy compareRecent (remindable ts)) in
  (length shown ≤ 5)%nat ∧
  (∀ task, task ∈ shown →
     task ∈ ts ∧ completed task = false ∧ is_Some (dueDate task)) ∧
  shown ++ omitted ≡ₚ remindable ts ∧
  (∀ (i j : nat) a b x y, (i < j)%nat → shown !! i = Some a → shown !! j = Some b →
     dueDate a = Some x → dueDate b = Some y → x ≤ y) ∧
  (∀ a b x y, a ∈ shown → b ∈ omitted →
     dueDate a = Some x → dueDate b = Some y → x ≤ y).
Proof.
  intros shown omitted. subst shown omitted. unfold recentTasks.
  set (sorted := sortBy compareRecent (remindable ts)).
  assert (Hperm : sorted ≡ₚ remindable ts) by apply sortBy_Permutation.
  assert (Hsorted : StronglySorted (notAfter compareRecent) sorted).
  { apply sortBy_sorted; [apply compareRecent_trans|apply compareRecent_total]. }
  assert (Horder : ∀ (i j : nat) a b x y, (i < j)%nat →
            sorted !! i = Some a → sorted !! j = Some b →
            dueDate a = Some x → dueDate b = Some y → x ≤ y).
  { intros i j a b x y Hlt Hi Hj Ha Hb.
    pose proof (StronglySorted_pairs _ sorted i j a b Hsorted Hlt Hi Hj) as Hab.
    unfold notAfter, compareRecent in Hab. rewrite Ha, Hb in Hab. simpl in Hab. lia. }
  split; [rewrite length_take; lia|]. split; [|split; [|split]].
  - intros task Hin.
    assert (Hin' : task ∈ remindable ts).
    { rewrite <- Hperm. apply elem_of_take in Hin as (i & Hi & _).
      apply list_elem_of_lookup. by exists i. }
    apply list_elem_of_filter in Hin' as [[Hopen Hdue] Hts]. done.
  - by rewrite take_drop.
  - intros i j a b x y Hlt Hi Hj.
    apply lookup_take_Some in Hi as [Hi _]. apply lookup_take_Some in Hj as [Hj _].
    by apply (Horder i j).
  - intros a b x y Ha Hb.
    apply elem_of_take in Ha as (i & Hi & Hlt).
    apply list_elem_of_lookup in Hb as [k Hk]. rewrite lookup_drop in Hk.
    apply (Horder i (5 + k)%nat); [lia|done|done].
Qed.

Lemma recentTasks_are_the_most_urgent_witness :
  let open_ n := sampleTask "t" false (Some n) 0 in
  let ts := [open_ 70; open_ 10; sampleTask "d" true (Some 5) 0; open_ 60; open_ 30;
             sampleTask "u" false None 0; open_ 50; open_ 20] in
  recentTasks ts = [open_ 10; open_ 20; open_ 30; open_ 50; open_ 60] ∧
  (open_ 10 ∈ ts ∧ completed (open_ 10) = false ∧ is_Some (dueDate (open_ 10))).
Proof.
  intros open_ ts.
  assert (Hshown : recentTasks ts = [open_ 10; open_ 20; open_ 30; open_ 50; open_ 60])
    by reflexivity.
  split; [exact Hshown|].
  apply (proj1 (proj2 (recentTasks_are_the_most_urgent ts)) (open_ 10)).
  rewrite Hshown. left.
Defined.
